(** * StablePay: the InvoiceRegistry contract and the dashboard's status view

    A shallow embedding of [contracts/InvoiceRegistry.sol] (Solidity 0.8.28)
    and of the status projection of the TypeScript front end ([types.ts],
    [services/web3Service.ts]).

    Contract storage is a record; every external function is a computation in
    a small state-and-abort monad that works on a scratch copy of the storage
    and records, in order, the storage writes, the calls to the bank precompile
    and the events.  [transact] is the transaction boundary of the EVM: a
    computation that returns commits its scratch copy, one that aborts
    (a failed [require], an arithmetic panic) leaves the world as it was. *)

From Stdlib Require Import ZArith Lia.
From Stdlib Require Import Strings.Byte.
From stdpp Require Import base gmap strings list.

Local Open Scope Z_scope.

(** ** Value types *)

(** [address] (160 bits), [uint256], [uint64], [uint8] and [bytes32] values
    are carried as integers; the ABI decoder rejects arguments outside the
    range of their type before a function body runs, and the only arithmetic
    of the contract is the checked [+ 1] of [checked_add] below. *)
Abbreviation address := Z (only parsing).
Abbreviation uint256 := Z (only parsing).
Abbreviation uint64 := Z (only parsing).
Abbreviation uint8 := Z (only parsing).
Abbreviation bytes32 := Z (only parsing).

Definition UINT256_MAX : Z := 2 ^ 256 - 1.

(** ** Byte encodings used by the EIP-712 digest *)

Definition byte_of_Z (z : Z) : byte :=
  default Byte.x00 (Byte.of_N (Z.to_N (z mod 256))).

(** Big-endian encoding of [z] on [n] bytes. *)
Fixpoint be_bytes (n : nat) (z : Z) : list byte :=
  match n with
  | O => []
  | S k => be_bytes k (z / 256) ++ [byte_of_Z z]
  end.

(** [abi.encode] of a tuple of static values: one 32-byte word each. *)
Definition abi_encode (ws : list Z) : list byte :=
  concat (map (be_bytes 32) ws).

(** [bytes(s)] of a string. *)
Definition bytes (s : string) : list byte := String.list_byte_of_string s.

(** The cryptographic builtins of the EVM. *)
Class Builtins := {
  keccak256 : list byte -> bytes32;
  ecrecover : bytes32 -> uint8 -> bytes32 -> bytes32 -> address
}.

(** [interface IBank]: the bank precompile at [BANK_ADDRESS], with a state of
    its own (balances, allowances) that the registry cannot see.  A transfer
    answers [true] or [false]; the precompile does not call back into the
    registry. *)
Class IBank (B : Type) := {
  transferFrom : B -> address -> address -> uint256 -> bool * B
}.

(** ** Contract storage *)

Record Invoice := mkInvoice {
  merchant : address;
  payer : address;
  amount : uint256;
  expiresAt : uint64;
  status : uint8; (* 0: Pending, 1: Paid, 2: Cancelled *)
  metaHash : bytes32
}.

Record Storage := mkStorage {
  invoices : gmap Z Invoice;
  nextInvoiceId : uint256;
  DOMAIN_SEPARATOR : bytes32;
  nonces : gmap Z Z
}.

(** A Solidity mapping yields the zero value of its value type at every key
    that was never written. *)
Definition zero_invoice : Invoice := mkInvoice 0 0 0 0 0 0.

Definition invoice_at (s : Storage) (id : Z) : Invoice :=
  default zero_invoice (invoices s !! id).

Definition nonce_at (s : Storage) (a : address) : uint256 :=
  default 0 (nonces s !! a).

Definition set_status (v : uint8) (i : Invoice) : Invoice :=
  mkInvoice (merchant i) (payer i) (amount i) (expiresAt i) v (metaHash i).

Definition store_invoice (id : Z) (i : Invoice) (s : Storage) : Storage :=
  mkStorage (<[id := i]> (invoices s)) (nextInvoiceId s) (DOMAIN_SEPARATOR s)
            (nonces s).

Definition store_status (id : Z) (v : uint8) (s : Storage) : Storage :=
  store_invoice id (set_status v (invoice_at s id)) s.

Definition store_nextInvoiceId (v : uint256) (s : Storage) : Storage :=
  mkStorage (invoices s) v (DOMAIN_SEPARATOR s) (nonces s).

Definition store_nonce (a : address) (v : uint256) (s : Storage) : Storage :=
  mkStorage (invoices s) (nextInvoiceId s) (DOMAIN_SEPARATOR s)
            (<[a := v]> (nonces s)).

(** ** Events, effects and the execution monad *)

Inductive Event :=
| InvoiceCreated (invoiceId : uint256) (merchant payer : address)
                 (amount : uint256) (expiresAt : uint64) (metaHash : bytes32)
                 (metadata : string)
| InvoicePaid (invoiceId : uint256) (payer merchant : address)
              (amount : uint256)
| InvoiceCancelled (invoiceId : uint256).

(** What a call does, in program order. *)
Inductive Effect :=
| EStore (after : Storage)
| ECall (from to : address) (value : uint256) (ok : bool)
| ELog (e : Event).

Inductive Failure :=
| Revert (reason : string)
| Panic (code : Z).

(** The transaction context read by the contract. *)
Record Env := mkEnv {
  msg_sender : address;
  block_timestamp : Z
}.

Section Execution.
Context {B : Type} `{!IBank B} `{!Builtins}.

Record Machine := mkMachine {
  storage : Storage;
  bank : B;
  trace : list Effect
}.

Inductive Outcome (A : Type) :=
| Return (a : A) (m : Machine)
| Abort (f : Failure) (m : Machine).
Global Arguments Return {A} a m.
Global Arguments Abort {A} f m.

Definition M (A : Type) : Type := Machine -> Outcome A.

Definition ret {A} (a : A) : M A := fun m => Return a m.

Definition bind {A C} (c : M A) (k : A -> M C) : M C :=
  fun m => match c m with
           | Return a m' => k a m'
           | Abort f m' => Abort f m'
           end.

Definition sload {A} (f : Storage -> A) : M A :=
  fun m => Return (f (storage m)) m.

Definition sstore (f : Storage -> Storage) : M unit :=
  fun m => let s := f (storage m) in
           Return tt (mkMachine s (bank m) (trace m ++ [EStore s])).

Definition emit (e : Event) : M unit :=
  fun m => Return tt (mkMachine (storage m) (bank m) (trace m ++ [ELog e])).

Definition require (c : bool) (reason : string) : M unit :=
  fun m => if c then Return tt m else Abort (Revert reason) m.

(** Checked addition of Solidity 0.8: [Panic(0x11)] on overflow. *)
Definition checked_add (x y : uint256) : M uint256 :=
  fun m => if x + y <=? UINT256_MAX then Return (x + y) m
           else Abort (Panic 17) m.

(** [IBank(BANK_ADDRESS).transferFrom(from, to, value)]. *)
Definition bank_transferFrom (from to : address) (value : uint256) : M bool :=
  fun m => let '(ok, b) := transferFrom (bank m) from to value in
           Return ok (mkMachine (storage m) b
                                (trace m ++ [ECall from to value ok])).
(** stdpp's [x ← c; k] and [c;; k] notations for [M]. *)
Global Instance M_ret : MRet M := @ret.
Global Instance M_bind : MBind M := fun A C k c => bind c k.
End Execution.

Arguments Machine : clear implicits.
Arguments Outcome : clear implicits.
Arguments M : clear implicits.

(** ** The contract *)

Section InvoiceRegistry.
Context {B : Type} `{!IBank B} `{!Builtins}.

(** [keccak256("Invoice(address merchant,...,uint256 nonce)")]. *)
Definition INVOICE_TYPEHASH : bytes32 :=
  keccak256 (bytes "Invoice(address merchant,address payer,uint256 amount,uint64 expiresAt,bytes32 metaHash,uint256 nonce)").

Definition BANK_ADDRESS : address := 0x1000.

(** [constructor()]: every mapping empty, the counter at 0, the domain
    separator fixed from the chain id and the contract's own address. *)
Definition constructor (chainId : uint256) (this : address) : Storage :=
  mkStorage ∅ 0
    (keccak256 (abi_encode
       [keccak256 (bytes "EIP712Domain(string name,string version,uint256 chainId,address verifyingContract)");
        keccak256 (bytes "StablePay");
        keccak256 (bytes "1");
        chainId;
        this]))
    ∅.

(** Standard Create. *)
Definition createInvoice (env : Env) (_payer : address) (_amount : uint256)
    (_expiresAt : uint64) (_metadata : string) : M B uint256 :=
  invoiceId ← sload nextInvoiceId;
  next ← checked_add invoiceId 1;
  sstore (store_nextInvoiceId next);;
  let metaHash := keccak256 (bytes _metadata) in
  sstore (store_invoice invoiceId
            (mkInvoice (msg_sender env) _payer _amount _expiresAt 0 metaHash));;
  emit (InvoiceCreated invoiceId (msg_sender env) _payer _amount _expiresAt
                       metaHash _metadata);;
  mret invoiceId.

(** Standard Pay.  [invoice] is a storage pointer: each field access reads
    the scratch storage as it is at that point. *)
Definition pay (env : Env) (_invoiceId : uint256) : M B unit :=
  let invoice (s : Storage) := invoice_at s _invoiceId in
  st ← sload (fun s => status (invoice s));
  require (st =? 0) "Not pending";;
  exp ← sload (fun s => expiresAt (invoice s));
  require (block_timestamp env <=? exp) "Expired";;
  p ← sload (fun s => payer (invoice s));
  (if negb (p =? 0)
   then p' ← sload (fun s => payer (invoice s));
        require (msg_sender env =? p') "Wrong payer"
   else mret tt);;
  sstore (store_status _invoiceId 1);;
  m ← sload (fun s => merchant (invoice s));
  a ← sload (fun s => amount (invoice s));
  ok ← bank_transferFrom (msg_sender env) m a;
  require ok "Transfer failed";;
  m' ← sload (fun s => merchant (invoice s));
  a' ← sload (fun s => amount (invoice s));
  emit (InvoicePaid _invoiceId (msg_sender env) m' a').

(** Standard Cancel. *)
Definition cancelInvoice (env : Env) (_invoiceId : uint256) : M B unit :=
  let invoice (s : Storage) := invoice_at s _invoiceId in
  m ← sload (fun s => merchant (invoice s));
  require (msg_sender env =? m) "Not merchant";;
  st ← sload (fun s => status (invoice s));
  require (st =? 0) "Cannot cancel";;
  sstore (store_status _invoiceId 2);;
  emit (InvoiceCancelled _invoiceId).

(** The EIP-712 digest that [_verifySignature] hashes. *)
Definition invoiceDigest (s : Storage) (_merchant _payer : address)
    (_amount : uint256) (_expiresAt : uint64) (_metaHash : bytes32)
    (_nonce : uint256) : bytes32 :=
  keccak256 ([Byte.x19; Byte.x01]
             ++ be_bytes 32 (DOMAIN_SEPARATOR s)
             ++ be_bytes 32 (keccak256 (abi_encode
                  [INVOICE_TYPEHASH; _merchant; _payer; _amount; _expiresAt;
                   _metaHash; _nonce]))).

(** Helper: Verify EIP-712 Signature. *)
Definition _verifySignature (s : Storage) (_merchant _payer : address)
    (_amount : uint256) (_expiresAt : uint64) (_metaHash : bytes32)
    (_nonce : uint256) (_v : uint8) (_r _s : bytes32) : bool :=
  let digest :=
    invoiceDigest s _merchant _payer _amount _expiresAt _metaHash _nonce in
  let recovered := ecrecover digest _v _r _s in
  negb (recovered =? 0) && (recovered =? _merchant).

(** Gasless Create & Pay. *)
Definition createAndPayInvoice (env : Env) (_merchant _payer : address)
    (_amount : uint256) (_expiresAt : uint64) (_metadata : string)
    (_v : uint8) (_r _s : bytes32) : M B unit :=
  require (block_timestamp env <=? _expiresAt) "Expired";;
  (if negb (_payer =? 0)
   then require (msg_sender env =? _payer) "Wrong payer"
   else mret tt);;
  let metaHash := keccak256 (bytes _metadata) in
  currentNonce ← sload (fun s => nonce_at s _merchant);
  sigOk ← sload (fun s => _verifySignature s _merchant _payer _amount
                            _expiresAt metaHash currentNonce _v _r _s);
  require sigOk "Invalid signature";;
  bumped ← checked_add currentNonce 1;
  sstore (store_nonce _merchant bumped);;
  invoiceId ← sload nextInvoiceId;
  next ← checked_add invoiceId 1;
  sstore (store_nextInvoiceId next);;
  sstore (store_invoice invoiceId
            (mkInvoice _merchant _payer _amount _expiresAt 1 metaHash));;
  emit (InvoiceCreated invoiceId _merchant _payer _amount _expiresAt
                       metaHash _metadata);;
  ok ← bank_transferFrom (msg_sender env) _merchant _amount;
  require ok "Transfer failed";;
  emit (InvoicePaid invoiceId (msg_sender env) _merchant _amount).

(** [getInvoice]: a view, the six fields of the slot. *)
Definition getInvoice (_invoiceId : uint256)
  : M B (address * address * uint256 * uint64 * uint8 * bytes32) :=
  i ← sload (fun s => invoice_at s _invoiceId);
  mret (merchant i, payer i, amount i, expiresAt i, status i, metaHash i).

End InvoiceRegistry.

(** ** Transactions and runs *)

Section Transactions.
Context {B : Type} `{!IBank B} `{!Builtins}.

(** What persists between transactions: the registry's storage and the
    bank's state. *)
Record World := mkWorld {
  registry : Storage;
  ledger : B
}.

Inductive Receipt (A : Type) :=
| Success (a : A) (effects : list Effect)
| Failed (f : Failure).
Global Arguments Success {A} a effects.
Global Arguments Failed {A} f.

(** The scratch machine a call starts from. *)
Definition enter (w : World) : Machine B :=
  mkMachine (registry w) (ledger w) [].

(** One transaction: commit on return, roll everything back on abort. *)
Definition transact {A} (c : M B A) (w : World) : World * Receipt A :=
  match c (enter w) with
  | Return a m => (mkWorld (storage m) (bank m), Success a (trace m))
  | Abort f _ => (w, Failed f)
  end.

(** The state-changing entry points. *)
Inductive Call :=
| CreateInvoice (_payer : address) (_amount : uint256) (_expiresAt : uint64)
                (_metadata : string)
| Pay (_invoiceId : uint256)
| CancelInvoice (_invoiceId : uint256)
| CreateAndPayInvoice (_merchant _payer : address) (_amount : uint256)
                      (_expiresAt : uint64) (_metadata : string)
                      (_v : uint8) (_r _s : bytes32).

(** A receipt without its return value. *)
Definition settle {A} (r : World * Receipt A) : World * Receipt unit :=
  match r with
  | (w, Success _ effects) => (w, Success tt effects)
  | (w, Failed f) => (w, Failed f)
  end.

(** A call in its context: the world after it and its receipt. *)
Definition exec (w : World) (tx : Env * Call) : World * Receipt unit :=
  let env := tx.1 in
  match tx.2 with
  | CreateInvoice p a e md => settle (transact (createInvoice env p a e md) w)
  | Pay id => settle (transact (pay env id) w)
  | CancelInvoice id => settle (transact (cancelInvoice env id) w)
  | CreateAndPayInvoice m p a e md v r s =>
      settle (transact (createAndPayInvoice env m p a e md v r s) w)
  end.

Definition succeeded {A} (r : Receipt A) : bool :=
  match r with
  | Success _ _ => true
  | Failed _ => false
  end.

Definition committed {A} (r : Receipt A) : list Effect :=
  match r with
  | Success _ effects => effects
  | Failed _ => []
  end.

(** A sequence of transactions: the final world. *)
Definition run (w : World) (txs : list (Env * Call)) : World :=
  fold_left (fun w tx => (exec w tx).1) txs w.

(** The effects the transactions of a run committed, in order. *)
Fixpoint history (w : World) (txs : list (Env * Call)) : list Effect :=
  match txs with
  | [] => []
  | tx :: rest => (committed (exec w tx).2 ++ history (exec w tx).1 rest)%list
  end.

(** The nonces of [who] that the gasless authorizations of a run consumed:
    the value read by each [createAndPayInvoice] for [who] that returned. *)
Fixpoint consumed (who : address) (w : World) (txs : list (Env * Call))
  : list uint256 :=
  match txs with
  | [] => []
  | tx :: rest =>
      match tx.2, (exec w tx).2 with
      | CreateAndPayInvoice m _ _ _ _ _ _ _, Success _ _ =>
          if m =? who
          then nonce_at (registry w) who :: consumed who (exec w tx).1 rest
          else consumed who (exec w tx).1 rest
      | _, _ => consumed who (exec w tx).1 rest
      end
  end.

(** A context a transaction can really run in: a block time after the epoch
    and a caller other than the null address. *)
Definition live (env : Env) : Prop :=
  0 < block_timestamp env /\ msg_sender env <> 0.

(** Only identifiers below the counter have a slot that was ever written. *)
Definition allocated_only (s : Storage) : Prop :=
  0 <= nextInvoiceId s
  /\ forall id : Z, is_Some (invoices s !! id) -> 0 <= id < nextInvoiceId s.

(** The freshly deployed contract next to a bank in state [b]. *)
Definition deployed (chainId : uint256) (this : address) (b : B) : World :=
  mkWorld (constructor chainId this) b.

(** Identifiers announced by [InvoiceCreated] events, in order. *)
Fixpoint created_ids (es : list Effect) : list Z :=
  match es with
  | [] => []
  | ELog (InvoiceCreated id _ _ _ _ _ _) :: rest => id :: created_ids rest
  | _ :: rest => created_ids rest
  end.

End Transactions.

Arguments World : clear implicits.

(** ** A small concrete chain, to run the model on *)

Module Toy.

(** A bank of plain balances: a transfer succeeds when [from] holds enough. *)
#[export] Instance bank : IBank (gmap Z Z) := {|
  transferFrom b from to value :=
    let have := default 0 (b !! from) in
    if value <=? have
    then (true, <[to := default 0 (<[from := have - value]> b !! to) + value]>
                  (<[from := have - value]> b))
    else (false, b)
|}.

(** A toy hash and a toy signature scheme: key [k] signs digest [d] as
    [(27, k + d, 1)]. *)
#[export] Instance builtins : Builtins := {|
  keccak256 bs :=
    fold_left (fun acc b => (acc * 31 + Z.of_N (Byte.to_N b) + 1) mod 2 ^ 256)
              bs 7;
  ecrecover d v r s :=
    if (v =? 27) || (v =? 28) then r - d else 0
|}.

Definition alice : address := 0xA11CE.
Definition bob : address := 0xB0B.
Definition carol : address := 0xCA401.

Definition rich : gmap Z Z := {[ bob := 1000 ]}.
Definition broke : gmap Z Z := ∅.

Definition genesis (b : gmap Z Z) : World (gmap Z Z) := deployed 2201 0xBEEF b.

Definition at_time (who : address) (t : Z) : Env := mkEnv who t.

(** Alice's open invoice #0: 100 units, payable until time 3700. *)
Definition shop (b : gmap Z Z) : World (gmap Z Z) :=
  (exec (genesis b) (at_time alice 100, CreateInvoice 0 100 3700 "coffee")).1.

(** Alice's signature over a 50-unit invoice "tea", open to any payer until
    time 5000, at nonce [n] of the world [w]. *)
Definition tea_r (w : World (gmap Z Z)) (n : Z) : Z :=
  alice + invoiceDigest (registry w) alice 0 50 5000 (keccak256 (bytes "tea")) n.

Definition tea (w : World (gmap Z Z)) (n : Z) : Call :=
  CreateAndPayInvoice alice 0 50 5000 "tea" 27 (tea_r w n) 1.

(** Invoice #0 once Bob has paid it. *)
Definition paid_shop : World (gmap Z Z) :=
  (exec (shop rich) (at_time bob 110, Pay 0)).1.

(** The fresh contract once Bob has redeemed Alice's first signature. *)
Definition after_tea : World (gmap Z Z) :=
  (exec (genesis rich) (at_time bob 100, tea (genesis rich) 0)).1.

End Toy.

(** ** The front end's view of an invoice

    [types.ts], [getMerchantInvoices] of [services/web3Service.ts] and the
    status badges of [components/MerchantDashboard.tsx]. *)

Module Frontend.

(** [export enum InvoiceStatus]. *)
Inductive InvoiceStatus := NONE | CREATED | PAID | CANCELLED.

(** The number a member of the enum stands for at run time. *)
Definition value (k : InvoiceStatus) : Z :=
  match k with
  | NONE => 0
  | CREATED => 1
  | PAID => 2
  | CANCELLED => 3
  end.

(** The reverse mapping of the numeric enum, [InvoiceStatus[n]]. *)
Definition member (n : Z) : option InvoiceStatus :=
  if n =? 0 then Some NONE
  else if n =? 1 then Some CREATED
  else if n =? 2 then Some PAID
  else if n =? 3 then Some CANCELLED
  else None.

(** [interface Invoice], without its two display strings ([amount], a
    formatted decimal, and [description]), which nothing below reads. *)
Record Invoice := mkInvoice {
  id : Z;
  merchant : address;
  payer : address;
  expiresAt : Z;
  status : Z; (* typed InvoiceStatus, a number at run time *)
  metaHash : bytes32
}.

Section Dashboard.
Context {B : Type}.

(** An [eth_call] of a view function on the current world; a revert is the
    exception that the caller's [try]/[catch] turns into [null]. *)
Definition view {A} (c : M B A) (w : World B) : option A :=
  match c (enter w) with
  | Return a _ => Some a
  | Abort _ _ => None
  end.

(** The object built for one [InvoiceCreated] log: the current on-chain
    fields, the status copied by [Number(currentData.status)]. *)
Definition project (w : World B) (invoiceId : Z) : option Invoice :=
  match view (getInvoice invoiceId) w with
  | Some (m, p, _, e, st, mh) => Some (mkInvoice invoiceId m p e st mh)
  | None => None
  end.

(** [registry.filters.InvoiceCreated(null, merchantAddress)] over the log. *)
Definition queryFilter (merchantAddress : address) (es : list Effect)
  : list Z :=
  omap (fun e => match e with
                 | ELog (InvoiceCreated i m _ _ _ _ _) =>
                     if m =? merchantAddress then Some i else None
                 | _ => None
                 end) es.

(** [getMerchantInvoices]: newest first, one object per log, nulls dropped. *)
Definition getMerchantInvoices (w : World B) (merchantAddress : address)
    (log : list Effect) : list Invoice :=
  omap (project w) (reverse (queryFilter merchantAddress log)).

End Dashboard.

(** The status badges rendered next to an invoice of the history panel. *)
Definition badges (inv : Invoice) : list string :=
  ((if status inv =? value PAID then ["PAID"] else [])
   ++ (if status inv =? value CREATED then ["PENDING"] else [])
   ++ (if status inv =? value CANCELLED then ["CANCELLED"] else []))%list.

(** Whether the history panel offers the Cancel button. *)
Definition offers_cancel (inv : Invoice) : bool :=
  status inv =? value CREATED.

End Frontend.

(** ** Reading a log of effects *)

(** Identifiers of the [InvoicePaid] events, in order. *)
Definition paid_ids (es : list Effect) : list Z :=
  omap (fun e => match e with
                 | ELog (InvoicePaid i _ _ _) => Some i
                 | _ => None
                 end) es.

(** What the [InvoicePaid] events say was moved: payer, merchant, amount. *)
Definition settled (es : list Effect) : list (Z * Z * Z) :=
  omap (fun e => match e with
                 | ELog (InvoicePaid _ p m a) => Some (p, m, a)
                 | _ => None
                 end) es.

(** The calls made to the bank, with its answers. *)
Definition bank_calls (es : list Effect) : list (Z * Z * Z * bool) :=
  omap (fun e => match e with
                 | ECall from to v ok => Some (from, to, v, ok)
                 | _ => None
                 end) es.

(** The fields of an invoice that no function writes after creation. *)
Definition terms (i : Invoice) : Z * Z * Z * Z * Z :=
  (merchant i, payer i, amount i, expiresAt i, metaHash i).

(** ** The payment page's view of an invoice

    [PaymentPage]: the object [fetchInvoiceData] builds from [getInvoice]
    and what the page derives from its status. *)

Module PaymentPage.

Section Page.
Context {B : Type}.

(** [fetchInvoiceData]: the invoice state set from the contract's answer,
    [status: Number(data.status)]; [None] is the error state. *)
Definition fetchInvoiceData (w : World B) (invoiceId : Z)
  : option Frontend.Invoice :=
  match Frontend.view (getInvoice invoiceId) w with
  | Some (m, p, _, e, st, mh) => Some (Frontend.mkInvoice invoiceId m p e st mh)
  | None => None
  end.

End Page.

Definition isPaid (inv : Frontend.Invoice) : bool :=
  Frontend.status inv =? Frontend.value Frontend.PAID.

Definition isCancelled (inv : Frontend.Invoice) : bool :=
  Frontend.status inv =? Frontend.value Frontend.CANCELLED.

(** The action area (connect / approve / pay buttons) is rendered when
    [!isPaid && !isCancelled]. *)
Definition action_area (inv : Frontend.Invoice) : bool :=
  negb (isPaid inv) && negb (isCancelled inv).

End PaymentPage.

(** ** The gasless payment link

    [handleCreateGasless] of [components/MerchantDashboard.tsx] puts the
    signed authorization into the query string of a link; the effect
    "Handle Gasless Params" of [PaymentPage] reads it back. *)

(** The browser's [URLSearchParams], by what [get] answers after [set]. *)
Class URLSearchParams (P : Type) := {
  sp_new : P;
  sp_set : string -> string -> P -> P;
  sp_get : string -> P -> option string;
  sp_get_new : forall k : string, sp_get k sp_new = None;
  sp_get_set_eq : forall (k v : string) (sp : P),
    sp_get k (sp_set k v sp) = Some v;
  sp_get_set_ne : forall (k k' v : string) (sp : P),
    k <> k' -> sp_get k' (sp_set k v sp) = sp_get k' sp
}.

Module GaslessLink.

(** [x || d] for a value that is a string or [null]. *)
Definition or_else (x : option string) (d : string) : string :=
  match x with
  | Some EmptyString => d
  | Some s => s
  | None => d
  end.

(** [s.replace(/c/g, d)] for single characters. *)
Fixpoint replace_all (c d : Ascii.ascii) (s : string) : string :=
  match s with
  | EmptyString => EmptyString
  | String x rest =>
      String (if Ascii.eqb x c then d else x) (replace_all c d rest)
  end.

Definition ZeroAddress : string := "0x0000000000000000000000000000000000000000".

(** What the payment page keeps of a gasless link: [gaslessParams] and the
    description it displays.  [expires] is the text the page passes to
    [Number]. *)
Record View := mkView {
  merchant : string;
  amount : string;
  expires : string;
  metadataString : string;
  payer : string;
  signature : string;
  registry : string;
  description : string
}.

Section Link.
Context {P : Type} `{!URLSearchParams P}.

(** [atob], which throws on text that is not base64, and the description
    read from a JSON text, [jsonObj.d || jsonObj.description ||
    "Unknown Item"], which throws when [JSON.parse] does. *)
Variable atob : string -> option string.
Variable describe : string -> option string.

(** The parameters [handleCreateGasless] sets, in its order; [expires] is
    [expiresAt.toString()] and [meta64] is [btoa(metaString)]. *)
Definition link_params (merchant amount expires meta64 sig registry payer
    : string) : P :=
  let params := sp_new in
  let params := sp_set "merchant" merchant params in
  let params := sp_set "amount" amount params in
  let params := sp_set "expires" expires params in
  let params := sp_set "meta" meta64 params in
  let params := sp_set "sig" sig params in
  let params := sp_set "registry" registry params in
  match payer with
  | EmptyString => params
  | _ => sp_set "payer" payer params
  end.

(** The metadata string and the description the page decodes from [mParam]:
    nothing when it is empty, and what was assigned before the exception
    when [atob] or the JSON parser throws. *)
Definition decode_meta (mParam : string) : string * string :=
  match mParam with
  | EmptyString => (EmptyString, "No description")
  | _ =>
      (* mParam.replace(/-/g, '+').replace(/_/g, '/'):
         45 is '-', 43 is '+', 95 is '_', 47 is '/' *)
      let base64 :=
        replace_all (Ascii.ascii_of_nat 95) (Ascii.ascii_of_nat 47)
          (replace_all (Ascii.ascii_of_nat 45) (Ascii.ascii_of_nat 43)
                       mParam) in
      match atob base64 with
      | None => (EmptyString, "No description")
      | Some metaString =>
          match describe metaString with
          | None => (metaString, "No description")
          | Some d => (metaString, d)
          end
      end
  end.

(** The effect: nothing unless [sig] is present and not empty. *)
Definition read_link (searchParams : P) : option View :=
  match sp_get "sig" searchParams with
  | None | Some EmptyString => None
  | Some sig =>
      let merchant := or_else (sp_get "merchant" searchParams) "" in
      let amount := or_else (sp_get "amount" searchParams) "0" in
      let expires := or_else (sp_get "expires" searchParams) "0" in
      let mParam := or_else (sp_get "m" searchParams) "" in
      let payer := or_else (sp_get "payer" searchParams) ZeroAddress in
      let registry := or_else (sp_get "registry" searchParams) "" in
      let '(metaString, decodedDesc) := decode_meta mParam in
      Some (mkView merchant amount expires metaString payer sig registry
                   decodedDesc)
  end.

End Link.

(** Query parameters as a list of pairs, newest binding first. *)
#[export] Instance pairs : URLSearchParams (list (string * string)).
Proof.
  refine {|
    sp_new := [];
    sp_set k v sp := (k, v) :: sp;
    sp_get k sp :=
      snd <$> List.find (fun kv => String.eqb (fst kv) k) sp
  |}.
  - reflexivity.
  - intros k v sp. simpl. by rewrite String.eqb_refl.
  - intros k k' v sp Hne. simpl.
    destruct (String.eqb k k') eqn:Heq; [|reflexivity].
    by apply String.eqb_eq in Heq.
Defined.

End GaslessLink.

(** ** Where each entry point can end *)

Section Ends.
Context {B : Type} `{!IBank B} `{!Builtins}.

(** The world and receipt of a [createInvoice] that does not overflow. *)
Definition created (env : Env) (p a e : Z) (md : string) (w : World B)
  : World B * Receipt uint256 :=
  let id := nextInvoiceId (registry w) in
  let s1 := store_nextInvoiceId (id + 1) (registry w) in
  let i := mkInvoice (msg_sender env) p a e 0 (keccak256 (bytes md)) in
  let s2 := store_invoice id i s1 in
  (mkWorld s2 (ledger w),
   Success id [EStore s1; EStore s2;
               ELog (InvoiceCreated id (msg_sender env) p a e
                                    (keccak256 (bytes md)) md)]).

(** The machine a [pay] stops on once its checks have passed, the transfer
    having answered [ok] and left the bank in state [b]. *)
Definition pay_end (env : Env) (id : Z) (w : World B) (ok : bool) (b : B)
  : Machine B :=
  let inv := invoice_at (registry w) id in
  let s1 := store_status id 1 (registry w) in
  mkMachine s1 b
    ([EStore s1; ECall (msg_sender env) (merchant inv) (amount inv) ok]
     ++ (if ok
         then [ELog (InvoicePaid id (msg_sender env) (merchant inv)
                                 (amount inv))]
         else [])).

(** The storage a [createAndPayInvoice] has written once it reaches the
    transfer. *)
Definition authorized (m p a e : Z) (md : string) (s : Storage) : Storage :=
  store_invoice (nextInvoiceId s)
    (mkInvoice m p a e 1 (keccak256 (bytes md)))
    (store_nextInvoiceId (nextInvoiceId s + 1)
       (store_nonce m (nonce_at s m + 1) s)).

(** The machine a [createAndPayInvoice] stops on once its checks have
    passed, the transfer having answered [ok] and left the bank in [b]. *)
Definition gasless_end (env : Env) (m p a e : Z) (md : string) (w : World B)
    (ok : bool) (b : B) : Machine B :=
  let s := registry w in
  let id := nextInvoiceId s in
  let s1 := store_nonce m (nonce_at s m + 1) s in
  let s2 := store_nextInvoiceId (id + 1) s1 in
  mkMachine (authorized m p a e md s) b
    ([EStore s1; EStore s2; EStore (authorized m p a e md s);
      ELog (InvoiceCreated id m p a e (keccak256 (bytes md)) md);
      ECall (msg_sender env) m a ok]
     ++ (if ok then [ELog (InvoicePaid id (msg_sender env) m a)] else [])).

(** The machine an outcome stopped on. *)
Definition final {A} (o : Outcome B A) : Machine B :=
  match o with
  | Return _ m => m
  | Abort _ m => m
  end.

(** Whether the bank answered [false] to a transfer in a trace. *)
Definition declined (es : list Effect) : bool :=
  existsb (fun e => match e with
                    | ECall _ _ _ false => true
                    | _ => false
                    end) es.

End Ends.

(** ** Storage lemmas *)

Lemma invoice_at_store_invoice_eq (s : Storage) (id : Z) (i : Invoice) :
  invoice_at (store_invoice id i s) id = i.
Proof. unfold invoice_at, store_invoice; simpl. by rewrite lookup_insert_eq. Qed.

Lemma invoice_at_store_invoice_ne (s : Storage) (id id' : Z) (i : Invoice) :
  id ≠ id' -> invoice_at (store_invoice id i s) id' = invoice_at s id'.
Proof.
  intros Hne. unfold invoice_at, store_invoice; simpl.
  by rewrite lookup_insert_ne.
Qed.

Lemma invoice_at_store_status_eq (s : Storage) (id : Z) (v : Z) :
  invoice_at (store_status id v s) id = set_status v (invoice_at s id).
Proof. apply invoice_at_store_invoice_eq. Qed.

Lemma invoice_at_store_status_ne (s : Storage) (id id' : Z) (v : Z) :
  id ≠ id' -> invoice_at (store_status id v s) id' = invoice_at s id'.
Proof. apply invoice_at_store_invoice_ne. Qed.

Lemma nonce_at_store_nonce_eq (s : Storage) (a : Z) (v : Z) :
  nonce_at (store_nonce a v s) a = v.
Proof. unfold nonce_at, store_nonce; simpl. by rewrite lookup_insert_eq. Qed.

Lemma nonce_at_store_nonce_ne (s : Storage) (a a' : Z) (v : Z) :
  a ≠ a' -> nonce_at (store_nonce a v s) a' = nonce_at s a'.
Proof.
  intros Hne. unfold nonce_at, store_nonce; simpl.
  by rewrite lookup_insert_ne.
Qed.

(** ** Each entry point as a transition of the world

    The monadic bodies above, run from [enter w] through [transact], decide
    their result by the case analyses below. *)

Section Transitions.
Context {B : Type} `{!IBank B} `{!Builtins}.
Implicit Types (w : World B) (env : Env).

Ltac run_body :=
  unfold transact, enter, mbind, M_bind, mret, M_ret, bind, ret, sload, sstore,
    emit, require, checked_add, bank_transferFrom; simpl.

Lemma transact_createInvoice env p a e md w :
  transact (createInvoice env p a e md) w =
    if nextInvoiceId (registry w) + 1 <=? UINT256_MAX
    then created env p a e md w
    else (w, Failed (Panic 17)).
Proof.
  unfold createInvoice, created. run_body.
  destruct (_ <=? _); reflexivity.
Qed.

Lemma pay_enter env id w :
  pay env id (enter w) =
    let inv := invoice_at (registry w) id in
    if negb (status inv =? 0) then Abort (Revert "Not pending") (enter w)
    else if negb (block_timestamp env <=? expiresAt inv)
    then Abort (Revert "Expired") (enter w)
    else if negb (payer inv =? 0) && negb (msg_sender env =? payer inv)
    then Abort (Revert "Wrong payer") (enter w)
    else
      let t := transferFrom (ledger w) (msg_sender env) (merchant inv)
                            (amount inv) in
      if t.1 then Return tt (pay_end env id w true t.2)
      else Abort (Revert "Transfer failed") (pay_end env id w false t.2).
Proof.
  unfold pay, pay_end. run_body.
  destruct (status _ =? 0); simpl; [|reflexivity].
  destruct (_ <=? _); simpl; [|reflexivity].
  destruct (payer _ =? 0); simpl.
  - rewrite !invoice_at_store_status_eq; simpl.
    destruct (transferFrom _ _ _ _) as [[] b]; simpl;
      rewrite ?invoice_at_store_status_eq; reflexivity.
  - destruct (_ =? _); simpl; [|reflexivity].
    rewrite !invoice_at_store_status_eq; simpl.
    destruct (transferFrom _ _ _ _) as [[] b]; simpl;
      rewrite ?invoice_at_store_status_eq; reflexivity.
Qed.

Lemma transact_pay env id w :
  transact (pay env id) w =
    let inv := invoice_at (registry w) id in
    if negb (status inv =? 0) then (w, Failed (Revert "Not pending"))
    else if negb (block_timestamp env <=? expiresAt inv)
    then (w, Failed (Revert "Expired"))
    else if negb (payer inv =? 0) && negb (msg_sender env =? payer inv)
    then (w, Failed (Revert "Wrong payer"))
    else
      let t := transferFrom (ledger w) (msg_sender env) (merchant inv)
                            (amount inv) in
      if t.1
      then (mkWorld (store_status id 1 (registry w)) t.2,
            Success tt (trace (pay_end env id w true t.2)))
      else (w, Failed (Revert "Transfer failed")).
Proof.
  unfold transact. rewrite pay_enter. simpl.
  repeat (match goal with |- context [if ?c then _ else _] => destruct c end;
          simpl; try reflexivity).
Qed.

Lemma transact_cancelInvoice env id w :
  transact (cancelInvoice env id) w =
    let inv := invoice_at (registry w) id in
    if negb (msg_sender env =? merchant inv)
    then (w, Failed (Revert "Not merchant"))
    else if negb (status inv =? 0) then (w, Failed (Revert "Cannot cancel"))
    else
      let s1 := store_status id 2 (registry w) in
      (mkWorld s1 (ledger w),
       Success tt [EStore s1; ELog (InvoiceCancelled id)]).
Proof.
  unfold cancelInvoice. run_body.
  destruct (_ =? merchant _); simpl; [|reflexivity].
  destruct (status _ =? 0); reflexivity.
Qed.

Lemma createAndPayInvoice_enter env m p a e md v r s w :
  createAndPayInvoice env m p a e md v r s (enter w) =
    let n := nonce_at (registry w) m in
    let s1 := store_nonce m (n + 1) (registry w) in
    if negb (block_timestamp env <=? e) then Abort (Revert "Expired") (enter w)
    else if negb (p =? 0) && negb (msg_sender env =? p)
    then Abort (Revert "Wrong payer") (enter w)
    else if negb (_verifySignature (registry w) m p a e (keccak256 (bytes md))
                                   n v r s)
    then Abort (Revert "Invalid signature") (enter w)
    else if negb (n + 1 <=? UINT256_MAX) then Abort (Panic 17) (enter w)
    else if negb (nextInvoiceId (registry w) + 1 <=? UINT256_MAX)
    then Abort (Panic 17) (mkMachine s1 (ledger w) [EStore s1])
    else
      let t := transferFrom (ledger w) (msg_sender env) m a in
      if t.1 then Return tt (gasless_end env m p a e md w true t.2)
      else Abort (Revert "Transfer failed")
                 (gasless_end env m p a e md w false t.2).
Proof.
  unfold createAndPayInvoice, gasless_end, authorized. run_body.
  destruct (_ <=? e); simpl; [|reflexivity].
  destruct (p =? 0); simpl.
  - destruct (_verifySignature _ _ _ _ _ _ _ _ _ _); simpl; [|reflexivity].
    destruct (_ + 1 <=? _); simpl; [|reflexivity].
    destruct (_ + 1 <=? _); simpl; [|reflexivity].
    destruct (transferFrom _ _ _ _) as [[] b]; reflexivity.
  - destruct (msg_sender env =? p); simpl; [|reflexivity].
    destruct (_verifySignature _ _ _ _ _ _ _ _ _ _); simpl; [|reflexivity].
    destruct (_ + 1 <=? _); simpl; [|reflexivity].
    destruct (_ + 1 <=? _); simpl; [|reflexivity].
    destruct (transferFrom _ _ _ _) as [[] b]; reflexivity.
Qed.

Lemma transact_createAndPayInvoice env m p a e md v r s w :
  transact (createAndPayInvoice env m p a e md v r s) w =
    let n := nonce_at (registry w) m in
    if negb (block_timestamp env <=? e) then (w, Failed (Revert "Expired"))
    else if negb (p =? 0) && negb (msg_sender env =? p)
    then (w, Failed (Revert "Wrong payer"))
    else if negb (_verifySignature (registry w) m p a e (keccak256 (bytes md))
                                   n v r s)
    then (w, Failed (Revert "Invalid signature"))
    else if negb (n + 1 <=? UINT256_MAX) then (w, Failed (Panic 17))
    else if negb (nextInvoiceId (registry w) + 1 <=? UINT256_MAX)
    then (w, Failed (Panic 17))
    else
      let t := transferFrom (ledger w) (msg_sender env) m a in
      if t.1
      then (mkWorld (authorized m p a e md (registry w)) t.2,
            Success tt (trace (gasless_end env m p a e md w true t.2)))
      else (w, Failed (Revert "Transfer failed")).
Proof.
  unfold transact. rewrite createAndPayInvoice_enter. simpl.
  repeat (match goal with |- context [if ?c then _ else _] => destruct c end;
          simpl; try reflexivity).
Qed.

End Transitions.

(** ** Properties of the contract *)

Section Claims.
Context {B : Type} `{!IBank B} `{!Builtins}.
Implicit Types (w : World B) (env : Env).

(** C1. When the bank answers [false] to the transfer of a [pay] or of a
    [createAndPayInvoice], the call reverts with "Transfer failed" and the
    world is the one before the call.  For [pay]: the scratch copy had the
    invoice Paid, the committed invoice is still Pending, and the same caller
    pays it successfully, before expiry, against any bank state that accepts
    the transfer.  For [createAndPayInvoice]: the scratch copy had the nonce
    and the counter bumped and the invoice stored; none of it is committed. *)
Theorem transfer_failure_rolls_back env w :
  (forall id : Z,
     declined (trace (final (pay env id (enter w)))) = true ->
     let inv := invoice_at (registry w) id in
     transact (pay env id) w = (w, Failed (Revert "Transfer failed"))
     /\ status (invoice_at (storage (final (pay env id (enter w)))) id) = 1
     /\ status inv = 0
     /\ forall (env' : Env) (b' : B),
          msg_sender env' = msg_sender env ->
          block_timestamp env' <= expiresAt inv ->
          (transferFrom b' (msg_sender env) (merchant inv) (amount inv)).1
            = true ->
          exists w' es,
            transact (pay env' id) (mkWorld (registry w) b')
              = (w', Success tt es)
            /\ status (invoice_at (registry w') id) = 1)
  /\
  (forall (m p a e : Z) (md : string) (v r s : Z),
     let call := createAndPayInvoice env m p a e md v r s in
     declined (trace (final (call (enter w)))) = true ->
     transact call w = (w, Failed (Revert "Transfer failed"))
     /\ (let scratch := storage (final (call (enter w))) in
         nonce_at scratch m = nonce_at (registry w) m + 1
         /\ nextInvoiceId scratch = nextInvoiceId (registry w) + 1
         /\ status (invoice_at scratch (nextInvoiceId (registry w))) = 1)
     /\ (let w' := (transact call w).1 in
         invoices (registry w') = invoices (registry w)
         /\ nextInvoiceId (registry w') = nextInvoiceId (registry w)
         /\ nonce_at (registry w') m = nonce_at (registry w) m)).
Proof.
  split.
  - intros id Hd inv. rewrite pay_enter in Hd |- *. rewrite transact_pay.
    fold inv in Hd |- *. simpl in Hd |- *.
    destruct (status inv =? 0) eqn:Hst; simpl in Hd |- *; [|discriminate].
    destruct (block_timestamp env <=? expiresAt inv) eqn:Hexp;
      simpl in Hd |- *; [|discriminate].
    destruct (negb (payer inv =? 0) && negb (msg_sender env =? payer inv))
      eqn:Hp; simpl in Hd |- *; [discriminate|].
    destruct (transferFrom (ledger w) _ _ _) as [[] b] eqn:Ht;
      simpl in Hd |- *; [discriminate|].
    split; [reflexivity|].
    split; [rewrite invoice_at_store_status_eq; reflexivity|].
    split; [lia|].
    intros env' b' Hsender Hlive Hok.
    rewrite transact_pay. simpl. fold inv.
    rewrite Hst, Hsender, Hp. simpl.
    assert ((block_timestamp env' <=? expiresAt inv) = true) as -> by lia.
    simpl. rewrite Hok.
    eexists _, _. split; [reflexivity|].
    simpl. by rewrite invoice_at_store_status_eq.
  - intros m p a e md v r s call Hd. subst call.
    rewrite createAndPayInvoice_enter in Hd |- *.
    rewrite transact_createAndPayInvoice. simpl in Hd |- *.
    destruct (block_timestamp env <=? e); simpl in Hd |- *; [|discriminate].
    destruct (negb (p =? 0) && negb (msg_sender env =? p));
      simpl in Hd |- *; [discriminate|].
    destruct (_verifySignature _ _ _ _ _ _ _ _ _ _);
      simpl in Hd |- *; [|discriminate].
    destruct (nonce_at (registry w) m + 1 <=? UINT256_MAX);
      simpl in Hd |- *; [|discriminate].
    destruct (nextInvoiceId (registry w) + 1 <=? UINT256_MAX);
      simpl in Hd |- *; [|discriminate].
    destruct (transferFrom (ledger w) _ _ _) as [[] b] eqn:Ht;
      simpl in Hd |- *; [discriminate|].
    split; [reflexivity|]. split; [|done].
    unfold authorized. split; [|split].
    + unfold nonce_at at 1; simpl. by rewrite lookup_insert_eq.
    + reflexivity.
    + by rewrite invoice_at_store_invoice_eq.
Qed.

(** C2 (amended). [createAndPayInvoice] checks the expiry first, then the
    payer restriction, and the signature last, with the single reason
    "Invalid signature" for a null or a foreign signer.  An expired input
    reverts with "Expired" whatever its signature; an unexpired one presented
    by a caller other than its specific payer reverts with "Wrong payer"
    whatever its signature; "Invalid signature" is reported only when both
    of those checks pass.  None of the three changes the world. *)
Theorem gasless_check_order env w (m p a e : Z) (md : string) (v r s : Z) :
  let call := createAndPayInvoice env m p a e md v r s in
  let signed := _verifySignature (registry w) m p a e (keccak256 (bytes md))
                                 (nonce_at (registry w) m) v r s in
  (e < block_timestamp env ->
   transact call w = (w, Failed (Revert "Expired")))
  /\ (block_timestamp env <= e -> p <> 0 -> msg_sender env <> p ->
      transact call w = (w, Failed (Revert "Wrong payer")))
  /\ (block_timestamp env <= e -> p = 0 \/ msg_sender env = p ->
      signed = false ->
      transact call w = (w, Failed (Revert "Invalid signature"))).
Proof.
  intros call signed. subst call.
  rewrite transact_createAndPayInvoice. simpl. fold signed.
  split; [|split].
  - intros Hexp.
    assert ((block_timestamp env <=? e) = false) as -> by lia. reflexivity.
  - intros Hlive Hp Hsender.
    assert ((block_timestamp env <=? e) = true) as -> by lia.
    assert ((p =? 0) = false) as -> by lia.
    assert ((msg_sender env =? p) = false) as -> by lia. reflexivity.
  - intros Hlive Hp Hsig.
    assert ((block_timestamp env <=? e) = true) as -> by lia.
    assert (negb (p =? 0) && negb (msg_sender env =? p) = false) as ->
      by (destruct Hp as [-> | ->]; [reflexivity|];
          rewrite Z.eqb_refl; apply andb_false_r).
    rewrite Hsig. reflexivity.
Qed.

Ltac exec_cases tx :=
  destruct tx as [env [p a e md | id | id | m p a e md v r s]];
  unfold exec; simpl;
  [ rewrite transact_createInvoice; unfold created
  | rewrite transact_pay
  | rewrite transact_cancelInvoice
  | rewrite transact_createAndPayInvoice; unfold authorized ];
  simpl;
  repeat (match goal with
          | |- context [if ?c then _ else _] => destruct c eqn:?
          end; simpl).

Lemma run_cons w (tx : Env * Call) (rest : list (Env * Call)) :
  run w (tx :: rest) = run (exec w tx).1 rest.
Proof. reflexivity. Qed.

(** A transaction that fails leaves the world as it was. *)
Lemma exec_failed w (tx : Env * Call) :
  match (exec w tx).2 with
  | Failed _ => (exec w tx).1 = w
  | Success _ _ => True
  end.
Proof. exec_cases tx; done. Qed.

(** What one transaction does to the nonce of [who]. *)
Lemma exec_nonce w (tx : Env * Call) (who : Z) :
  nonce_at (registry (exec w tx).1) who =
    match tx.2, (exec w tx).2 with
    | CreateAndPayInvoice m _ _ _ _ _ _ _, Success _ _ =>
        if m =? who then nonce_at (registry w) who + 1
        else nonce_at (registry w) who
    | _, _ => nonce_at (registry w) who
    end.
Proof.
  exec_cases tx; try reflexivity.
  - unfold nonce_at at 1; simpl.
    assert (m = who) as -> by lia. by rewrite lookup_insert_eq.
  - unfold nonce_at at 1; simpl.
    assert (m <> who) by lia. by rewrite lookup_insert_ne.
Qed.

Lemma exec_nonce_mono w (tx : Env * Call) (who : Z) :
  nonce_at (registry w) who <= nonce_at (registry (exec w tx).1) who.
Proof.
  rewrite exec_nonce.
  destruct tx.2; try lia. destruct (exec w tx).2; try lia.
  destruct (_ =? _); lia.
Qed.

Lemma run_nonce_mono w (txs : list (Env * Call)) (who : Z) :
  nonce_at (registry w) who <= nonce_at (registry (run w txs)) who.
Proof.
  revert w. induction txs as [|tx rest IH]; intros w; [simpl; lia|].
  rewrite run_cons. pose proof (exec_nonce_mono w tx who).
  specialize (IH (exec w tx).1). lia.
Qed.

Lemma consumed_seqZ w (txs : list (Env * Call)) (who : Z) :
  consumed who w txs =
    seqZ (nonce_at (registry w) who)
         (nonce_at (registry (run w txs)) who - nonce_at (registry w) who).
Proof.
  revert w. induction txs as [|tx rest IH]; intros w.
  - simpl. by rewrite Z.sub_diag.
  - rewrite run_cons. simpl consumed.
    pose proof (exec_nonce w tx who) as Hstep.
    pose proof (run_nonce_mono (exec w tx).1 rest who) as Hmono.
    specialize (IH (exec w tx).1).
    destruct tx.2; try (rewrite IH, Hstep; reflexivity).
    destruct (exec w tx).2; try (rewrite IH, Hstep; reflexivity).
    destruct (_ =? _); try (rewrite IH, Hstep; reflexivity).
    rewrite IH, Hstep. rewrite Hstep in Hmono.
    rewrite (seqZ_cons (nonce_at (registry w) who)) by lia.
    f_equal. f_equal; lia.
Qed.

(** C3. The nonce of every merchant is 0 in the deployed contract; one
    transaction adds exactly 1 to it when it is a [createAndPayInvoice] for
    that merchant that returns, and leaves it as it was otherwise; a
    transaction that fails (bad signature, expired, wrong payer, failed
    transfer) leaves the whole world as it was; along every run the nonce
    never decreases, and the values consumed by the merchant's successful
    authorizations are the consecutive integers from the initial nonce up to
    the final one, so none is consumed twice. *)
Theorem nonce_discipline :
  (forall (chainId this m : Z), nonce_at (constructor chainId this) m = 0)
  /\ (forall w (tx : Env * Call) (who : Z),
        nonce_at (registry (exec w tx).1) who =
          match tx.2, (exec w tx).2 with
          | CreateAndPayInvoice m _ _ _ _ _ _ _, Success _ _ =>
              if m =? who then nonce_at (registry w) who + 1
              else nonce_at (registry w) who
          | _, _ => nonce_at (registry w) who
          end)
  /\ (forall w (tx : Env * Call),
        match (exec w tx).2 with
        | Failed _ => (exec w tx).1 = w
        | Success _ _ => True
        end)
  /\ (forall w (txs : list (Env * Call)) (who : Z),
        nonce_at (registry w) who <= nonce_at (registry (run w txs)) who)
  /\ (forall w (txs : list (Env * Call)) (who : Z),
        consumed who w txs =
          seqZ (nonce_at (registry w) who)
               (nonce_at (registry (run w txs)) who
                - nonce_at (registry w) who))
  /\ (forall w (txs : list (Env * Call)) (who : Z),
        NoDup (consumed who w txs)).
Proof.
  split; [reflexivity|].
  split; [apply exec_nonce|].
  split; [apply exec_failed|].
  split; [apply run_nonce_mono|].
  split; [apply consumed_seqZ|].
  intros w txs who. rewrite consumed_seqZ. apply NoDup_seqZ.
Qed.

Lemma invoiceDigest_authorized (s0 : Storage) (m p a e : Z) (md : string)
    (m' p' a' e' mh' k : Z) :
  invoiceDigest (authorized m p a e md s0) m' p' a' e' mh' k
  = invoiceDigest s0 m' p' a' e' mh' k.
Proof. reflexivity. Qed.


(** The storage a [pay] that returned has committed. *)
Lemma pay_commits env w (id : Z) (w' : World B)
    (es : list Effect) :
  transact (pay env id) w = (w', Success tt es) ->
  registry w' = store_status id 1 (registry w)
  /\ status (invoice_at (registry w) id) = 0.
Proof.
  intros Hok. rewrite transact_pay in Hok. simpl in Hok.
  destruct (status _ =? 0) eqn:Hst; simpl in Hok; [|discriminate].
  destruct (block_timestamp env <=? _); simpl in Hok; [|discriminate].
  destruct (negb (payer _ =? 0) && _); simpl in Hok; [discriminate|].
  destruct (transferFrom (ledger w) _ _ _) as [[] b]; simpl in Hok;
    [|discriminate].
  injection Hok as <- _. split; [reflexivity|lia].
Qed.

(** C8. A [pay] that returns has done exactly three things, in this order:
    written the storage with the invoice's status at 1 (Paid), called
    [transferFrom(msg.sender, merchant, amount)] with the merchant and the
    amount the invoice had before the call, and logged [InvoicePaid].  The
    amount of the invoice is the same before the call, at the transfer and
    after the call. *)
Theorem pay_marks_paid_then_transfers env w (id : Z) (w' : World B)
    (es : list Effect) :
  transact (pay env id) w = (w', Success tt es) ->
  let inv := invoice_at (registry w) id in
  exists s1 : Storage,
    es = [EStore s1;
          ECall (msg_sender env) (merchant inv) (amount inv) true;
          ELog (InvoicePaid id (msg_sender env) (merchant inv) (amount inv))]
    /\ status inv = 0
    /\ status (invoice_at s1 id) = 1
    /\ amount (invoice_at s1 id) = amount inv
    /\ registry w' = s1.
Proof.
  intros Hok inv. rewrite transact_pay in Hok. simpl in Hok. fold inv in Hok.
  destruct (status inv =? 0) eqn:Hst; simpl in Hok; [|discriminate].
  destruct (block_timestamp env <=? expiresAt inv); simpl in Hok;
    [|discriminate].
  destruct (negb (payer inv =? 0) && negb (msg_sender env =? payer inv));
    simpl in Hok; [discriminate|].
  destruct (transferFrom (ledger w) _ _ _) as [[] b]; simpl in Hok;
    [|discriminate].
  injection Hok as <- <-.
  exists (store_status id 1 (registry w)).
  rewrite invoice_at_store_status_eq. simpl.
  repeat split; try reflexivity. lia.
Qed.

Lemma created_ids_app (es es' : list Effect) :
  created_ids (es ++ es') = created_ids es ++ created_ids es'.
Proof.
  induction es as [|[s0| |[]] es IH]; simpl; rewrite ?IH; reflexivity.
Qed.

(** One transaction either allocates nothing and leaves the counter, or
    allocates the counter's value and adds one to it. *)
Lemma exec_alloc w (tx : Env * Call) :
  let n := nextInvoiceId (registry w) in
  (created_ids (committed (exec w tx).2) = []
   /\ nextInvoiceId (registry (exec w tx).1) = n)
  \/ (created_ids (committed (exec w tx).2) = [n]
      /\ nextInvoiceId (registry (exec w tx).1) = n + 1).
Proof. exec_cases tx; auto. Qed.

Lemma run_next_mono w (txs : list (Env * Call)) :
  nextInvoiceId (registry w) <= nextInvoiceId (registry (run w txs)).
Proof.
  revert w. induction txs as [|tx rest IH]; intros w; [simpl; lia|].
  rewrite run_cons. specialize (IH (exec w tx).1).
  destruct (exec_alloc w tx) as [[_ Hn] | [_ Hn]]; lia.
Qed.

Lemma history_seqZ w (txs : list (Env * Call)) :
  created_ids (history w txs) =
    seqZ (nextInvoiceId (registry w))
         (nextInvoiceId (registry (run w txs)) - nextInvoiceId (registry w)).
Proof.
  revert w. induction txs as [|tx rest IH]; intros w.
  - simpl. by rewrite Z.sub_diag.
  - rewrite run_cons. simpl history. rewrite created_ids_app, IH.
    pose proof (run_next_mono (exec w tx).1 rest) as Hmono.
    destruct (exec_alloc w tx) as [[-> Hn] | [-> Hn]]; rewrite Hn in *.
    + reflexivity.
    + rewrite (seqZ_cons (nextInvoiceId (registry w))) by lia.
      simpl. f_equal. f_equal; lia.
Qed.

(** C9. The counter of the deployed contract is 0.  A [createInvoice] that
    returns returns the counter's value, stores the invoice there and leaves
    the counter one higher; a [createAndPayInvoice] that returns does the
    same, announcing the identifier in its [InvoiceCreated] event; either
    one that fails changes nothing.  Hence the identifiers created along any
    run from the deployed contract are 0, 1, ..., up to the final counter,
    each once and in this order. *)
Theorem identifiers_dense :
  (forall chainId this : Z, nextInvoiceId (constructor chainId this) = 0)
  /\ (forall env (p a e : Z) (md : string) w,
        let n := nextInvoiceId (registry w) in
        match transact (createInvoice env p a e md) w with
        | (w', Success id es) =>
            id = n /\ created_ids es = [n]
            /\ nextInvoiceId (registry w') = n + 1
            /\ invoice_at (registry w') n
               = mkInvoice (msg_sender env) p a e 0 (keccak256 (bytes md))
        | (w', Failed _) => w' = w
        end)
  /\ (forall env (m p a e : Z) (md : string) (v r s : Z) w,
        let n := nextInvoiceId (registry w) in
        match transact (createAndPayInvoice env m p a e md v r s) w with
        | (w', Success _ es) =>
            created_ids es = [n]
            /\ nextInvoiceId (registry w') = n + 1
            /\ invoice_at (registry w') n
               = mkInvoice m p a e 1 (keccak256 (bytes md))
        | (w', Failed _) => w' = w
        end)
  /\ (forall w (txs : list (Env * Call)),
        created_ids (history w txs) =
          seqZ (nextInvoiceId (registry w))
               (nextInvoiceId (registry (run w txs))
                - nextInvoiceId (registry w)))
  /\ (forall (chainId this : Z) (b : B) (txs : list (Env * Call)),
        let w0 := deployed chainId this b in
        created_ids (history w0 txs)
          = seqZ 0 (nextInvoiceId (registry (run w0 txs)))
        /\ NoDup (created_ids (history w0 txs))).
Proof.
  split; [reflexivity|].
  split.
  { intros env p a e md w n. rewrite transact_createInvoice.
    destruct (_ <=? _); [|reflexivity].
    unfold created. simpl. rewrite invoice_at_store_invoice_eq. done. }
  split.
  { intros env m p a e md v r s w n. rewrite transact_createAndPayInvoice.
    simpl.
    repeat (match goal with
            | |- context [if ?c then _ else _] => destruct c
            end; simpl; try reflexivity).
    unfold authorized. rewrite invoice_at_store_invoice_eq. done. }
  split; [apply history_seqZ|].
  intros chainId this b txs w0.
  rewrite history_seqZ. simpl. rewrite Z.sub_0_r.
  split; [reflexivity|apply NoDup_seqZ].
Qed.


Lemma invoice_at_unwritten (s0 : Storage) (id : Z) :
  invoices s0 !! id = None -> invoice_at s0 id = zero_invoice.
Proof. unfold invoice_at. by intros ->. Qed.

Lemma allocated_only_unwritten (s0 : Storage) (id : Z) :
  allocated_only s0 -> ~ (0 <= id < nextInvoiceId s0) ->
  invoices s0 !! id = None.
Proof.
  intros [_ Hall] Hout. destruct (invoices s0 !! id) eqn:Hid; [|reflexivity].
  exfalso. apply Hout, Hall. by rewrite Hid.
Qed.

Lemma exec_allocated_only w (tx : Env * Call) :
  live tx.1 -> allocated_only (registry w) ->
  allocated_only (registry (exec w tx).1).
Proof.
  intros Hlive Hinv. pose proof Hinv as [Hnext Hall].
  exec_cases tx; try exact Hinv.
  - split; simpl; [lia|]. intros id Hid.
    destruct (decide (nextInvoiceId (registry w) = id)) as [<-|Hne]; [lia|].
    rewrite lookup_insert_ne in Hid by done.
    specialize (Hall id Hid). lia.
  - split; simpl; [lia|]. intros id' Hid.
    destruct (decide (id = id')) as [<-|Hne].
    + destruct (invoices (registry w) !! id) eqn:Hslot;
        [apply Hall; by rewrite Hslot|].
      exfalso. rewrite (invoice_at_unwritten _ _ Hslot) in *. simpl in *.
      destruct Hlive as [Hts _]. simpl in Hts. lia.
    + rewrite lookup_insert_ne in Hid by done. by apply Hall.
  - split; simpl; [lia|]. intros id' Hid.
    destruct (decide (id = id')) as [<-|Hne].
    + destruct (invoices (registry w) !! id) eqn:Hslot;
        [apply Hall; by rewrite Hslot|].
      exfalso. rewrite (invoice_at_unwritten _ _ Hslot) in *. simpl in *.
      destruct Hlive as [_ Hsender]. simpl in Hsender. lia.
    + rewrite lookup_insert_ne in Hid by done. by apply Hall.
  - split; simpl; [lia|]. intros id Hid.
    destruct (decide (nextInvoiceId (registry w) = id)) as [<-|Hne]; [lia|].
    rewrite lookup_insert_ne in Hid by done.
    specialize (Hall id Hid). lia.
Qed.

Lemma run_allocated_only w (txs : list (Env * Call)) :
  Forall (fun tx => live tx.1) txs -> allocated_only (registry w) ->
  allocated_only (registry (run w txs)).
Proof.
  intros Hlive. revert w.
  induction Hlive as [|tx rest Htx _ IH]; intros w Hinv; [exact Hinv|].
  rewrite run_cons. apply IH. by apply exec_allocated_only.
Qed.

Lemma deployed_allocated_only (chainId this : Z) (b : B) :
  allocated_only (registry (deployed chainId this b)).
Proof.
  split; simpl; [lia|]. intros id Hid. rewrite lookup_empty in Hid.
  by destruct Hid.
Qed.

(** C5 (amended). The contract has no notion of an unknown identifier: a
    slot that no create has written reads as the all-zero invoice.  In every
    world reached from the deployed contract by transactions run in live
    contexts (positive block time, non-null caller), and for every
    identifier outside the allocated range, in a live context:
    [pay] reverts with "Expired", [cancelInvoice] reverts with
    "Not merchant", neither changes anything, and [getInvoice] returns six
    zeros. *)
Theorem unallocated_identifier (chainId this : Z) (b : B)
    (txs : list (Env * Call)) env (id : Z) :
  let w := run (deployed chainId this b) txs in
  Forall (fun tx => live tx.1) txs ->
  live env ->
  ~ (0 <= id < nextInvoiceId (registry w)) ->
  transact (pay env id) w = (w, Failed (Revert "Expired"))
  /\ transact (cancelInvoice env id) w = (w, Failed (Revert "Not merchant"))
  /\ transact (getInvoice id) w = (w, Success (0, 0, 0, 0, 0, 0) []).
Proof.
  intros w Htxs [Hts Hsender] Hout.
  assert (Hzero : invoice_at (registry w) id = zero_invoice).
  { apply invoice_at_unwritten, allocated_only_unwritten; [|exact Hout].
    apply run_allocated_only; [exact Htxs|apply deployed_allocated_only]. }
  split; [|split].
  - rewrite transact_pay. simpl. rewrite Hzero. simpl.
    assert ((block_timestamp env <=? 0) = false) as -> by lia. reflexivity.
  - rewrite transact_cancelInvoice. simpl. rewrite Hzero. simpl.
    assert ((msg_sender env =? 0) = false) as -> by lia. reflexivity.
  - unfold transact, getInvoice, mbind, M_bind, bind, sload, mret, M_ret, ret.
    simpl. rewrite Hzero. by destruct w.
Qed.


Lemma run_app w (txs1 txs2 : list (Env * Call)) :
  run w (txs1 ++ txs2) = run (run w txs1) txs2.
Proof. apply fold_left_app. Qed.

(** What one transaction does to the status of an allocated invoice. *)
Lemma exec_status w (tx : Env * Call) (i : Z) :
  i < nextInvoiceId (registry w) ->
  let st := status (invoice_at (registry w) i) in
  let st' := status (invoice_at (registry (exec w tx).1) i) in
  st' = st
  \/ (st = 0 /\ ((tx.2 = Pay i /\ st' = 1)
                 \/ (tx.2 = CancelInvoice i /\ st' = 2))).
Proof.
  intros Hi. exec_cases tx; auto.
  - left. rewrite invoice_at_store_invoice_ne by lia. reflexivity.
  - destruct (decide (id = i)) as [->|Hne].
    + right. rewrite invoice_at_store_status_eq. simpl.
      split; [lia|]. left. done.
    + left. by rewrite invoice_at_store_status_ne.
  - destruct (decide (id = i)) as [->|Hne].
    + right. rewrite invoice_at_store_status_eq. simpl.
      split; [lia|]. right. done.
    + left. by rewrite invoice_at_store_status_ne.
  - left. rewrite invoice_at_store_invoice_ne by (simpl; lia). reflexivity.
Qed.

Lemma run_status w (txs : list (Env * Call)) (id : Z) :
  id < nextInvoiceId (registry w) ->
  let st := status (invoice_at (registry w) id) in
  let st' := status (invoice_at (registry (run w txs)) id) in
  st' = st \/ (st = 0 /\ (st' = 1 \/ st' = 2)).
Proof.
  revert w. induction txs as [|tx rest IH]; intros w Hid; [by left|].
  rewrite run_cons.
  assert (Hid' : id < nextInvoiceId (registry (exec w tx).1)).
  { destruct (exec_alloc w tx) as [[_ Hn] | [_ Hn]]; lia. }
  specialize (IH _ Hid'). simpl in IH |- *.
  destruct (exec_status w tx id Hid) as [Heq | [H0 [[_ H1] | [_ H2]]]];
    simpl in *; lia.
Qed.

(** C7 (amended). For an allocated invoice: one transaction leaves its status
    as it is, or moves it from 0 (Pending) to 1 (Paid) and is a [pay] of
    that invoice, or from 0 to 2 (Cancelled) and is a [cancelInvoice] of that
    invoice; once the status has changed along a run it never changes again,
    and a status other than 0 survives every run.  On an invoice that is not
    Pending, [pay] reverts with "Not pending", and [cancelInvoice] reverts
    with "Cannot cancel" when the caller is the merchant and with
    "Not merchant" when it is anybody else. *)
Theorem status_moves_once w (id : Z) :
  id < nextInvoiceId (registry w) ->
  let st (x : World B) := status (invoice_at (registry x) id) in
  (forall tx : Env * Call,
     st (exec w tx).1 = st w
     \/ (st w = 0 /\ ((tx.2 = Pay id /\ st (exec w tx).1 = 1)
                      \/ (tx.2 = CancelInvoice id /\ st (exec w tx).1 = 2))))
  /\ (forall txs1 txs2 : list (Env * Call),
        st (run w txs1) <> st w ->
        st (run w (txs1 ++ txs2)) = st (run w txs1))
  /\ (st w <> 0 -> forall txs : list (Env * Call), st (run w txs) = st w)
  /\ (st w <> 0 -> forall env,
        transact (pay env id) w = (w, Failed (Revert "Not pending"))
        /\ transact (cancelInvoice env id) w
           = (w, Failed (Revert
                (if msg_sender env =? merchant (invoice_at (registry w) id)
                 then "Cannot cancel" else "Not merchant")))).
Proof.
  intros Hid st. split; [|split; [|split]].
  - intros tx. apply (exec_status w tx id Hid).
  - intros txs1 txs2 Hmoved. rewrite run_app.
    pose proof (run_status w txs1 id Hid) as H1.
    pose proof (run_next_mono w txs1) as Hmono.
    assert (Hid' : id < nextInvoiceId (registry (run w txs1))) by lia.
    pose proof (run_status (run w txs1) txs2 id Hid') as H2.
    unfold st in *. simpl in *. lia.
  - intros Hterm txs. pose proof (run_status w txs id Hid) as H1.
    unfold st in *. simpl in *. lia.
  - intros Hterm env. unfold st in Hterm.
    rewrite transact_pay, transact_cancelInvoice. simpl.
    assert ((status (invoice_at (registry w) id) =? 0) = false) as -> by lia.
    simpl. split; [reflexivity|].
    destruct (msg_sender env =? _); reflexivity.
Qed.

(** C10. The dashboard copies the on-chain status number unchanged into a
    field it reads as [InvoiceStatus], whose members are numbered one higher
    than the contract's states.  So the object built for an invoice has the
    contract's number; an invoice the contract holds as Paid (1) reads as
    [CREATED], is badged PENDING and is offered for cancellation; one it
    holds as Cancelled (2) reads as [PAID] and is badged PAID; one it holds
    as Pending (0) reads as [NONE] and gets no badge.  In particular that is
    what the dashboard shows after a [pay], respectively a [cancelInvoice],
    that returned, and it holds of every row of [getMerchantInvoices]. *)
Theorem dashboard_status_off_by_one w (id : Z) :
  (exists inv : Frontend.Invoice,
     Frontend.project w id = Some inv
     /\ Frontend.id inv = id
     /\ Frontend.status inv = status (invoice_at (registry w) id)
     /\ (status (invoice_at (registry w) id) = 1 ->
         Frontend.member (Frontend.status inv) = Some Frontend.CREATED
         /\ Frontend.badges inv = ["PENDING"]
         /\ Frontend.offers_cancel inv = true)
     /\ (status (invoice_at (registry w) id) = 2 ->
         Frontend.member (Frontend.status inv) = Some Frontend.PAID
         /\ Frontend.badges inv = ["PAID"])
     /\ (status (invoice_at (registry w) id) = 0 ->
         Frontend.member (Frontend.status inv) = Some Frontend.NONE
         /\ Frontend.badges inv = []))
  /\ (forall env (w' : World B) (es : list Effect),
        transact (pay env id) w = (w', Success tt es) ->
        exists inv : Frontend.Invoice,
          Frontend.project w' id = Some inv
          /\ Frontend.member (Frontend.status inv) = Some Frontend.CREATED)
  /\ (forall env (w' : World B) (es : list Effect),
        transact (cancelInvoice env id) w = (w', Success tt es) ->
        exists inv : Frontend.Invoice,
          Frontend.project w' id = Some inv
          /\ Frontend.member (Frontend.status inv) = Some Frontend.PAID)
  /\ (forall (who : Z) (log : list Effect),
        Forall (fun inv => Frontend.status inv
                           = status (invoice_at (registry w) (Frontend.id inv)))
               (Frontend.getMerchantInvoices w who log)).
Proof.
  split; [|split; [|split]].
  - eexists. split; [reflexivity|]. simpl.
    split; [reflexivity|]. split; [reflexivity|].
    unfold Frontend.badges, Frontend.offers_cancel; simpl.
    split; [|split]; intros ->; repeat split; reflexivity.
  - intros env w' es Hok.
    destruct (pay_commits env w id w' es Hok)
      as [Hreg _].
    eexists. split; [reflexivity|]. simpl.
    rewrite Hreg, invoice_at_store_status_eq. reflexivity.
  - intros env w' es Hok. rewrite transact_cancelInvoice in Hok. simpl in Hok.
    destruct (negb (msg_sender env =? _)); [discriminate|].
    destruct (negb (status _ =? 0)); [discriminate|].
    injection Hok as <- _.
    eexists. split; [reflexivity|]. simpl.
    rewrite invoice_at_store_status_eq. reflexivity.
  - intros who log. apply Forall_forall. intros inv Hin.
    unfold Frontend.getMerchantInvoices in Hin.
    apply list_elem_of_omap in Hin as (i & _ & Hproj).
    unfold Frontend.project, Frontend.view, getInvoice, mbind, M_bind, bind,
      sload, mret, M_ret, ret in Hproj. simpl in Hproj.
    injection Hproj as <-. reflexivity.
Qed.

End Claims.

(** ** Further properties of the contract *)

Section Ledger.
Context {B : Type} `{!IBank B} `{!Builtins}.
Implicit Types (w : World B) (env : Env).

Ltac by_cases tx :=
  destruct tx as [env [p a e md | id | id | m p a e md v r s]];
  unfold exec; simpl;
  [ rewrite transact_createInvoice; unfold created
  | rewrite transact_pay
  | rewrite transact_cancelInvoice
  | rewrite transact_createAndPayInvoice; unfold authorized ];
  simpl;
  repeat (match goal with
          | |- context [if ?c then _ else _] => destruct c eqn:?
          end; simpl).

(** X1. [pay] returns exactly when the invoice is Pending, the block time is
    not past its expiry, the caller is its payer or it has none, and the bank
    accepts the transfer; otherwise it reverts, and the reason is that of the
    first of these four conditions that fails, in this order. *)
Theorem pay_succeeds_iff env w (id : Z) :
  let inv := invoice_at (registry w) id in
  let r := (transact (pay env id) w).2 in
  let accepted :=
    (transferFrom (ledger w) (msg_sender env) (merchant inv) (amount inv)).1 in
  (succeeded r = true <->
     status inv = 0 /\ block_timestamp env <= expiresAt inv
     /\ (payer inv = 0 \/ msg_sender env = payer inv) /\ accepted = true)
  /\ (status inv <> 0 -> r = Failed (Revert "Not pending"))
  /\ (status inv = 0 -> expiresAt inv < block_timestamp env ->
      r = Failed (Revert "Expired"))
  /\ (status inv = 0 -> block_timestamp env <= expiresAt inv ->
      payer inv <> 0 -> msg_sender env <> payer inv ->
      r = Failed (Revert "Wrong payer"))
  /\ (status inv = 0 -> block_timestamp env <= expiresAt inv ->
      payer inv = 0 \/ msg_sender env = payer inv -> accepted = false ->
      r = Failed (Revert "Transfer failed")).
Proof.
  intros inv r accepted. subst r accepted. rewrite transact_pay. simpl.
  fold inv.
  destruct (status inv =? 0) eqn:Hst; simpl.
  2: { repeat split; try (intros; lia); try discriminate. }
  destruct (block_timestamp env <=? expiresAt inv) eqn:Hexp; simpl.
  2: { repeat split; try (intros; lia); try discriminate. }
  destruct (payer inv =? 0) eqn:Hp; simpl.
  - destruct (transferFrom _ _ _ _) as [[] b]; simpl;
      repeat split; try (intros; lia); try discriminate; auto; try lia.
  - destruct (msg_sender env =? payer inv) eqn:Hs; simpl.
    + destruct (transferFrom _ _ _ _) as [[] b]; simpl;
        repeat split; try (intros; lia); try discriminate; auto; try lia.
    + repeat split; try (intros; lia); try discriminate.
Qed.

(** X2. [cancelInvoice] returns exactly when the caller is the invoice's
    merchant and the invoice is Pending.  It then sets that invoice's status
    to 2 and changes nothing else: every other field and every other invoice,
    the counter, the nonces and the bank are as before, and the bank is not
    called.  Any other caller gets "Not merchant"; the merchant of an invoice
    that is not Pending gets "Cannot cancel". *)
Theorem cancel_by_merchant_only env w (id : Z) :
  let inv := invoice_at (registry w) id in
  let res := transact (cancelInvoice env id) w in
  (succeeded res.2 = true <-> msg_sender env = merchant inv /\ status inv = 0)
  /\ (succeeded res.2 = true ->
      invoice_at (registry res.1) id = set_status 2 inv
      /\ (forall j : Z, j <> id ->
            invoice_at (registry res.1) j = invoice_at (registry w) j)
      /\ nextInvoiceId (registry res.1) = nextInvoiceId (registry w)
      /\ nonces (registry res.1) = nonces (registry w)
      /\ ledger res.1 = ledger w
      /\ bank_calls (committed res.2) = [])
  /\ (msg_sender env <> merchant inv ->
      res = (w, Failed (Revert "Not merchant")))
  /\ (msg_sender env = merchant inv -> status inv <> 0 ->
      res = (w, Failed (Revert "Cannot cancel"))).
Proof.
  intros inv res. subst res. rewrite transact_cancelInvoice. simpl. fold inv.
  destruct (msg_sender env =? merchant inv) eqn:Hm; simpl.
  2: { repeat split; try (intros; lia); try discriminate. }
  destruct (status inv =? 0) eqn:Hst; simpl.
  2: { repeat split; try (intros; lia); try discriminate. }
  repeat split; try (intros; lia); try discriminate.
  - apply invoice_at_store_status_eq.
  - intros j Hj. apply invoice_at_store_status_ne. congruence.
Qed.

(** X3. [createAndPayInvoice] returns exactly when the block time is not
    past the expiry, the caller is the named payer or none is named, the
    signature recovers, from the digest at the merchant's current nonce, an
    address that is the merchant and is not null, the nonce and the counter
    can be incremented, and the bank accepts the transfer.  It then has
    stored, at the counter's value, a Paid invoice with exactly the arguments
    and the hash of the metadata, and has called the bank once, for
    [(msg.sender, merchant, amount)]. *)
Theorem gasless_succeeds_iff env w (m p a e : Z) (md : string) (v r s : Z) :
  let n := nonce_at (registry w) m in
  let digest := invoiceDigest (registry w) m p a e (keccak256 (bytes md)) n in
  let t := transferFrom (ledger w) (msg_sender env) m a in
  let res := transact (createAndPayInvoice env m p a e md v r s) w in
  (succeeded res.2 = true <->
     block_timestamp env <= e
     /\ (p = 0 \/ msg_sender env = p)
     /\ ecrecover digest v r s = m /\ m <> 0
     /\ n + 1 <= UINT256_MAX
     /\ nextInvoiceId (registry w) + 1 <= UINT256_MAX
     /\ t.1 = true)
  /\ (succeeded res.2 = true ->
      invoice_at (registry res.1) (nextInvoiceId (registry w))
        = mkInvoice m p a e 1 (keccak256 (bytes md))
      /\ ledger res.1 = t.2
      /\ bank_calls (committed res.2) = [(msg_sender env, m, a, true)]).
Proof.
  intros n digest t res. subst res t.
  rewrite transact_createAndPayInvoice. simpl. fold n.
  unfold _verifySignature. fold digest.
  destruct (block_timestamp env <=? e) eqn:Hexp; simpl.
  2: { split; [split|]; [discriminate|intros; lia|discriminate]. }
  destruct (negb (p =? 0) && negb (msg_sender env =? p)) eqn:Hp; simpl.
  { split; [split|]; [discriminate| |discriminate].
    intros (_ & Hq & _). apply andb_true_iff in Hp as [Hp0 Hps].
    apply negb_true_iff in Hp0, Hps. lia. }
  assert (Hp' : p = 0 \/ msg_sender env = p).
  { apply andb_false_iff in Hp as [Hp | Hp]; apply negb_false_iff in Hp;
      [left|right]; lia. }
  destruct (negb (ecrecover digest v r s =? 0)
            && (ecrecover digest v r s =? m)) eqn:Hsig; simpl.
  2: { split; [split|]; [discriminate| |discriminate].
       intros (_ & _ & Hrec & Hnz & _).
       rewrite Hrec, Z.eqb_refl, andb_true_r in Hsig.
       apply negb_false_iff in Hsig. lia. }
  apply andb_true_iff in Hsig as [Hnz Hrec].
  apply negb_true_iff in Hnz.
  destruct (n + 1 <=? UINT256_MAX) eqn:Hn; simpl.
  2: { split; [split|]; [discriminate|intros; lia|discriminate]. }
  destruct (nextInvoiceId (registry w) + 1 <=? UINT256_MAX) eqn:Hc; simpl.
  2: { split; [split|]; [discriminate|intros; lia|discriminate]. }
  destruct (transferFrom (ledger w) _ _ _) as [[] b]; simpl.
  2: { split; [split|]; [discriminate| |discriminate].
       intros (_ & _ & _ & _ & _ & _ & Hacc). discriminate. }
  split; [split|].
  - intros _. repeat split; lia.
  - reflexivity.
  - intros _. unfold authorized. rewrite invoice_at_store_invoice_eq.
    repeat split.
Qed.

Lemma history_app w (txs1 txs2 : list (Env * Call)) :
  history w (txs1 ++ txs2) = history w txs1 ++ history (run w txs1) txs2.
Proof.
  revert w. induction txs1 as [|tx rest IH]; intros w; [reflexivity|].
  simpl. rewrite IH, app_assoc. reflexivity.
Qed.

Lemma run_snoc w (txs : list (Env * Call)) (tx : Env * Call) :
  run w (txs ++ [tx]) = (exec (run w txs) tx).1.
Proof. rewrite run_app. reflexivity. Qed.

Lemma history_snoc w (txs : list (Env * Call)) (tx : Env * Call) :
  history w (txs ++ [tx]) = history w txs ++ committed (exec (run w txs) tx).2.
Proof. rewrite history_app. simpl. by rewrite app_nil_r. Qed.

Lemma terms_set_status (v : Z) (i : Invoice) : terms (set_status v i) = terms i.
Proof. reflexivity. Qed.

(** One transaction keeps the terms of every allocated invoice. *)
Lemma exec_terms w (tx : Env * Call) (i : Z) :
  i < nextInvoiceId (registry w) ->
  terms (invoice_at (registry (exec w tx).1) i)
  = terms (invoice_at (registry w) i).
Proof.
  intros Hi. by_cases tx; try reflexivity.
  - rewrite invoice_at_store_invoice_ne by lia. reflexivity.
  - destruct (decide (id = i)) as [->|Hne].
    + rewrite invoice_at_store_status_eq. apply terms_set_status.
    + by rewrite invoice_at_store_status_ne.
  - destruct (decide (id = i)) as [->|Hne].
    + rewrite invoice_at_store_status_eq. apply terms_set_status.
    + by rewrite invoice_at_store_status_ne.
  - rewrite invoice_at_store_invoice_ne by (simpl; lia). reflexivity.
Qed.

Lemma exec_next_mono w (tx : Env * Call) :
  nextInvoiceId (registry w) <= nextInvoiceId (registry (exec w tx).1).
Proof. destruct (exec_alloc w tx) as [[_ Hn] | [_ Hn]]; lia. Qed.

Lemma run_terms w (txs : list (Env * Call)) (i : Z) :
  i < nextInvoiceId (registry w) ->
  terms (invoice_at (registry (run w txs)) i)
  = terms (invoice_at (registry w) i).
Proof.
  revert w. induction txs as [|tx rest IH]; intros w Hi; [reflexivity|].
  rewrite run_cons, IH, exec_terms; [reflexivity|exact Hi|].
  pose proof (exec_next_mono w tx). lia.
Qed.

(** X4. Along every run, an invoice that has been allocated keeps its
    merchant, payer, amount, expiry and metadata hash: the status is the only
    field the contract ever writes after creation. *)
Theorem invoice_terms_immutable w (txs : list (Env * Call)) (i : Z) :
  i < nextInvoiceId (registry w) ->
  let before := invoice_at (registry w) i in
  let after := invoice_at (registry (run w txs)) i in
  merchant after = merchant before
  /\ payer after = payer before
  /\ amount after = amount before
  /\ expiresAt after = expiresAt before
  /\ metaHash after = metaHash before.
Proof.
  intros Hi before after. pose proof (run_terms w txs i Hi) as Heq.
  unfold terms in Heq. fold before after in Heq.
  injection Heq as -> -> -> -> ->. repeat split.
Qed.

(** An [InvoiceCreated] event committed by one transaction describes the
    invoice the transaction has just stored at the counter's old value. *)
Lemma exec_announces w (tx : Env * Call) (i m p a e mh : Z) (md : string) :
  ELog (InvoiceCreated i m p a e mh md) ∈ committed (exec w tx).2 ->
  i = nextInvoiceId (registry w)
  /\ nextInvoiceId (registry (exec w tx).1) = i + 1
  /\ terms (invoice_at (registry (exec w tx).1) i) = (m, p, a, e, mh)
  /\ mh = keccak256 (bytes md).
Proof.
  destruct tx as [env [p0 a0 e0 md0 | id | id | m0 p0 a0 e0 md0 v r s]];
    unfold exec; simpl;
    [ rewrite transact_createInvoice; unfold created
    | rewrite transact_pay
    | rewrite transact_cancelInvoice
    | rewrite transact_createAndPayInvoice; unfold authorized ];
    simpl;
    repeat (match goal with
            | |- context [if ?c then _ else _] => destruct c eqn:?
            end; simpl);
    intros Hin;
    repeat (apply elem_of_cons in Hin as [Hin | Hin]; [try discriminate|]);
    try (by apply elem_of_nil in Hin).
  - injection Hin as -> -> -> -> -> -> ->.
    rewrite invoice_at_store_invoice_eq. done.
  - injection Hin as -> -> -> -> -> -> ->.
    rewrite invoice_at_store_invoice_eq. done.
Qed.

(** Every [InvoiceCreated] event of a history from the deployed contract
    describes the invoice stored at its identifier. *)
Lemma announced_in_storage (chainId this : Z) (b : B)
    (txs : list (Env * Call)) (i m p a e mh : Z) (md : string) :
  let w0 := deployed chainId this b in
  ELog (InvoiceCreated i m p a e mh md) ∈ history w0 txs ->
  0 <= i < nextInvoiceId (registry (run w0 txs))
  /\ terms (invoice_at (registry (run w0 txs)) i) = (m, p, a, e, mh)
  /\ mh = keccak256 (bytes md).
Proof.
  intros w0. induction txs as [|tx txs IH] using rev_ind; intros Hin.
  - by apply elem_of_nil in Hin.
  - rewrite history_snoc in Hin. rewrite run_snoc.
    pose proof (run_next_mono w0 txs) as H0. simpl in H0.
    pose proof (exec_next_mono (run w0 txs) tx) as H1.
    apply elem_of_app in Hin as [Hin | Hin].
    + destruct (IH Hin) as (Hi & Hterms & Hmh).
      split; [lia|]. split; [|exact Hmh].
      rewrite exec_terms by lia. exact Hterms.
    + destruct (exec_announces _ _ _ _ _ _ _ _ _ Hin)
        as (-> & Hn & Hterms & Hmh).
      split; [lia|]. split; [exact Hterms|exact Hmh].
Qed.

(** X5. In every world reached from the deployed contract, each
    [InvoiceCreated] event of the history still describes the stored
    invoice: its identifier is allocated, the merchant, payer, amount, expiry
    and metadata hash it carries are the ones in storage, and the hash is the
    hash of the metadata string it carries. *)
Theorem created_events_describe_storage (chainId this : Z) (b : B)
    (txs : list (Env * Call)) (i m p a e mh : Z) (md : string) :
  let w0 := deployed chainId this b in
  let inv := invoice_at (registry (run w0 txs)) i in
  ELog (InvoiceCreated i m p a e mh md) ∈ history w0 txs ->
  0 <= i < nextInvoiceId (registry (run w0 txs))
  /\ merchant inv = m /\ payer inv = p /\ amount inv = a
  /\ expiresAt inv = e /\ metaHash inv = mh
  /\ mh = keccak256 (bytes md).
Proof.
  intros w0 inv Hin.
  destruct (announced_in_storage chainId this b txs i m p a e mh md Hin)
    as (Hi & Hterms & Hmh).
  unfold terms in Hterms. fold inv in Hterms.
  injection Hterms as <- <- <- <- <-.
  split; [exact Hi|]. repeat split. exact Hmh.
Qed.

Lemma exec_bank_calls w (tx : Env * Call) :
  match bank_calls (committed (exec w tx).2) with
  | [] => ledger (exec w tx).1 = ledger w
  | [(from, to, v, ok)] =>
      ok = true
      /\ transferFrom (ledger w) from to v = (true, ledger (exec w tx).1)
      /\ settled (committed (exec w tx).2) = [(from, to, v)]
  | _ => False
  end
  /\ bank_calls (committed (exec w tx).2)
     = (fun t => (t, true)) <$> settled (committed (exec w tx).2).
Proof.
  by_cases tx; try (split; reflexivity).
  - destruct (transferFrom _ _ _ _) as [ok b0] eqn:Ht. simpl in *.
    subst ok. repeat split.
  - destruct (transferFrom _ _ _ _) as [ok b0] eqn:Ht. simpl in *.
    subst ok. repeat split.
Qed.

(** X6. A transaction calls the bank at most once; when it does not, the
    bank's state is untouched, and when it does, the bank accepted the
    transfer, its state is the one that transfer left, and the transaction
    logged one [InvoicePaid] for exactly that payer, merchant and amount.
    Along every run the bank calls of the history are, one for one and in
    order, the transfers the [InvoicePaid] events report, all accepted: no
    declined transfer is ever committed. *)
Theorem transfers_match_payments w :
  (forall tx : Env * Call,
     match bank_calls (committed (exec w tx).2) with
     | [] => ledger (exec w tx).1 = ledger w
     | [(from, to, v, ok)] =>
         ok = true
         /\ transferFrom (ledger w) from to v = (true, ledger (exec w tx).1)
         /\ settled (committed (exec w tx).2) = [(from, to, v)]
     | _ => False
     end)
  /\ (forall txs : list (Env * Call),
        bank_calls (history w txs)
        = (fun t => (t, true)) <$> settled (history w txs))
  /\ (forall txs : list (Env * Call), declined (history w txs) = false).
Proof.
  assert (Hcalls : forall (txs : list (Env * Call)) (w1 : World B),
            bank_calls (history w1 txs)
            = (fun t => (t, true)) <$> settled (history w1 txs)).
  { induction txs as [|tx rest IH]; intros w1; [reflexivity|].
    simpl. unfold bank_calls, settled in *. rewrite !omap_app, fmap_app.
    rewrite IH. f_equal. apply (exec_bank_calls w1 tx). }
  split; [intros tx; apply (exec_bank_calls w tx)|].
  split; [intros txs; apply Hcalls|].
  intros txs. specialize (Hcalls txs w).
  assert (Hall : Forall (fun c => c.2 = true) (bank_calls (history w txs))).
  { rewrite Hcalls. apply Forall_fmap, Forall_forall. done. }
  clear Hcalls. induction (history w txs) as [|[s0|f t v ok|ev] es IH];
    simpl in *; auto.
  apply Forall_cons in Hall as [Hok Hall]. simpl in Hok. subst ok.
  apply IH, Hall.
Qed.

Lemma exec_domain w (tx : Env * Call) :
  DOMAIN_SEPARATOR (registry (exec w tx).1) = DOMAIN_SEPARATOR (registry w).
Proof. by_cases tx; reflexivity. Qed.

Lemma run_domain w (txs : list (Env * Call)) :
  DOMAIN_SEPARATOR (registry (run w txs)) = DOMAIN_SEPARATOR (registry w).
Proof.
  revert w. induction txs as [|tx rest IH]; intros w; [reflexivity|].
  rewrite run_cons, IH. apply exec_domain.
Qed.

(** X7. The domain separator never changes, so a signature is checked against
    the same digest in every later world.  Hence an authorization whose
    signature verifies at the merchant's nonce stays redeemable through any
    traffic that consumes no nonce of that merchant: once the later context
    passes the expiry and payer checks, the counters have room and the bank
    accepts, [createAndPayInvoice] returns. *)
Theorem authorization_outlives_traffic w (txs : list (Env * Call)) env
    (m p a e : Z) (md : string) (v r s : Z) :
  let w' := run w txs in
  consumed m w txs = [] ->
  _verifySignature (registry w) m p a e (keccak256 (bytes md))
                   (nonce_at (registry w) m) v r s = true ->
  block_timestamp env <= e ->
  p = 0 \/ msg_sender env = p ->
  nonce_at (registry w) m + 1 <= UINT256_MAX ->
  nextInvoiceId (registry w') + 1 <= UINT256_MAX ->
  (transferFrom (ledger w') (msg_sender env) m a).1 = true ->
  DOMAIN_SEPARATOR (registry w') = DOMAIN_SEPARATOR (registry w)
  /\ nonce_at (registry w') m = nonce_at (registry w) m
  /\ succeeded (transact (createAndPayInvoice env m p a e md v r s) w').2
     = true.
Proof.
  intros w' Hquiet Hsig Hexp Hp Hn Hc Hbank.
  assert (Hdom : DOMAIN_SEPARATOR (registry w') = DOMAIN_SEPARATOR (registry w))
    by apply run_domain.
  assert (Hnonce : nonce_at (registry w') m = nonce_at (registry w) m).
  { pose proof (consumed_seqZ w txs m) as Hseq.
    pose proof (run_nonce_mono w txs m) as Hmono. fold w' in Hseq, Hmono.
    rewrite Hquiet in Hseq.
    destruct (decide (nonce_at (registry w') m = nonce_at (registry w) m))
      as [Heq|Hne]; [exact Heq|].
    rewrite (seqZ_cons (nonce_at (registry w) m)) in Hseq by lia.
    discriminate. }
  split; [exact Hdom|]. split; [exact Hnonce|].
  rewrite transact_createAndPayInvoice. simpl. rewrite Hnonce.
  assert ((block_timestamp env <=? e) = true) as -> by lia. simpl.
  assert (negb (p =? 0) && negb (msg_sender env =? p) = false) as ->.
  { destruct Hp as [-> | <-]; [reflexivity|].
    rewrite Z.eqb_refl. apply andb_false_r. }
  assert (_verifySignature (registry w') m p a e (keccak256 (bytes md))
            (nonce_at (registry w) m) v r s = true) as ->.
  { rewrite <- Hsig. unfold _verifySignature, invoiceDigest.
    rewrite Hdom. reflexivity. }
  simpl.
  assert ((nonce_at (registry w) m + 1 <=? UINT256_MAX) = true) as -> by lia.
  assert ((nextInvoiceId (registry w') + 1 <=? UINT256_MAX) = true) as ->
    by lia.
  simpl. rewrite Hbank. reflexivity.
Qed.

(** The invariant behind X8: what has been paid is allocated and no longer
    Pending, and was paid once. *)
Lemma exec_paid_once w (tx : Env * Call) (h : list Effect) :
  live tx.1 ->
  allocated_only (registry w) ->
  (forall i : Z, i ∈ paid_ids h ->
     i < nextInvoiceId (registry w)
     /\ status (invoice_at (registry w) i) <> 0) ->
  NoDup (paid_ids h) ->
  let h' := h ++ committed (exec w tx).2 in
  (forall i : Z, i ∈ paid_ids h' ->
     i < nextInvoiceId (registry (exec w tx).1)
     /\ status (invoice_at (registry (exec w tx).1) i) <> 0)
  /\ NoDup (paid_ids h').
Proof.
  intros Hlive Hall Hpaid Hnd h'. subst h'.
  unfold paid_ids in *. rewrite omap_app.
  assert (Hold : forall i : Z,
            i ∈ omap (fun e => match e with
                               | ELog (InvoicePaid i _ _ _) => Some i
                               | _ => None
                               end) h ->
            i < nextInvoiceId (registry (exec w tx).1)
            /\ status (invoice_at (registry (exec w tx).1) i) <> 0).
  { intros i Hi. destruct (Hpaid i Hi) as [Hlt Hst].
    pose proof (exec_next_mono w tx). split; [lia|].
    destruct (exec_status w tx i Hlt) as [Heq | [Hzero _]]; simpl in *; lia. }
  revert Hold.
  destruct tx as [env [p a e md | id | id | m p a e md v r s]];
    unfold exec; simpl;
    [ rewrite transact_createInvoice; unfold created
    | rewrite transact_pay
    | rewrite transact_cancelInvoice
    | rewrite transact_createAndPayInvoice; unfold authorized ];
    simpl;
    repeat (match goal with
            | |- context [if ?c then _ else _] => destruct c eqn:?
            end; simpl);
    rewrite ?app_nil_r; intros Hold; try (split; [exact Hold|exact Hnd]).
  - (* pay *)
    assert (Hfresh : id ∉ omap (fun e => match e with
                                         | ELog (InvoicePaid i _ _ _) => Some i
                                         | _ => None
                                         end) h).
    { intros Hin. destruct (Hpaid id Hin) as [_ Hst]. lia. }
    assert (Hid : id < nextInvoiceId (registry w)).
    { destruct (invoices (registry w) !! id) eqn:Hslot.
      - destruct Hall as [_ Hall]. apply Hall. by rewrite Hslot.
      - exfalso. rewrite (invoice_at_unwritten _ _ Hslot) in *. simpl in *.
        destruct Hlive as [Hts _]. simpl in Hts. lia. }
    split.
    + intros i Hi. apply elem_of_app in Hi as [Hi | Hi]; [by apply Hold|].
      apply list_elem_of_singleton in Hi as ->. split; [exact Hid|].
      rewrite invoice_at_store_status_eq. simpl. lia.
    + apply NoDup_app. split; [exact Hnd|].
      split; [|apply NoDup_singleton].
      intros i Hi Hi'. apply list_elem_of_singleton in Hi' as ->. by apply Hfresh.
  - (* createAndPayInvoice *)
    assert (Hfresh : nextInvoiceId (registry w)
                     ∉ omap (fun e => match e with
                                      | ELog (InvoicePaid i _ _ _) => Some i
                                      | _ => None
                                      end) h).
    { intros Hin. destruct (Hpaid _ Hin) as [Hlt _]. lia. }
    split.
    + intros i Hi. apply elem_of_app in Hi as [Hi | Hi]; [by apply Hold|].
      apply list_elem_of_singleton in Hi as ->. split; [lia|].
      rewrite invoice_at_store_invoice_eq. simpl. lia.
    + apply NoDup_app. split; [exact Hnd|].
      split; [|apply NoDup_singleton].
      intros i Hi Hi'. apply list_elem_of_singleton in Hi' as ->. by apply Hfresh.
Qed.

(** X8. No invoice is paid twice: along every run from the deployed contract
    whose transactions run in live contexts (positive block time, non-null
    caller), the [InvoicePaid] events carry pairwise distinct identifiers,
    each of an allocated invoice that is no longer Pending. *)
Theorem no_invoice_paid_twice (chainId this : Z) (b : B)
    (txs : list (Env * Call)) :
  let w0 := deployed chainId this b in
  Forall (fun tx => live tx.1) txs ->
  NoDup (paid_ids (history w0 txs))
  /\ forall i : Z, i ∈ paid_ids (history w0 txs) ->
       0 <= i < nextInvoiceId (registry (run w0 txs))
       /\ status (invoice_at (registry (run w0 txs)) i) <> 0.
Proof.
  intros w0 Hlive.
  assert (Hinv : allocated_only (registry (run w0 txs))
                 /\ (forall i : Z, i ∈ paid_ids (history w0 txs) ->
                       i < nextInvoiceId (registry (run w0 txs))
                       /\ status (invoice_at (registry (run w0 txs)) i) <> 0)
                 /\ NoDup (paid_ids (history w0 txs))).
  { induction txs as [|tx txs IH] using rev_ind.
    - split; [apply deployed_allocated_only|].
      split; [|apply NoDup_nil_2].
      intros i Hi. by apply elem_of_nil in Hi.
    - rewrite Forall_app, Forall_singleton in Hlive.
      destruct Hlive as [Hlive Htx].
      destruct (IH Hlive) as (Hall & Hpaid & Hnd).
      rewrite run_snoc, history_snoc.
      split; [apply exec_allocated_only; [exact Htx|exact Hall]|].
      apply (exec_paid_once _ _ _ Htx Hall Hpaid Hnd). }
  destruct Hinv as (Hall & Hpaid & Hnd).
  split; [exact Hnd|]. intros i Hi. destruct (Hpaid i Hi) as [Hlt Hst].
  split; [|exact Hst]. split; [|exact Hlt].
  destruct (invoices (registry (run w0 txs)) !! i) eqn:Hslot.
  - destruct Hall as [_ Hall]. apply Hall. by rewrite Hslot.
  - exfalso. apply Hst. by rewrite (invoice_at_unwritten _ _ Hslot).
Qed.

Lemma exec_status_range w (tx : Env * Call) :
  (forall i : Z, 0 <= status (invoice_at (registry w) i) <= 2) ->
  forall i : Z, 0 <= status (invoice_at (registry (exec w tx).1) i) <= 2.
Proof.
  intros Hall.
  by_cases tx; try exact Hall; intros i.
  - destruct (decide (nextInvoiceId (registry w) = i)) as [<-|Hne].
    + rewrite invoice_at_store_invoice_eq. simpl. lia.
    + rewrite invoice_at_store_invoice_ne by done. apply Hall.
  - destruct (decide (id = i)) as [<-|Hne].
    + rewrite invoice_at_store_status_eq. simpl. lia.
    + rewrite invoice_at_store_status_ne by done. apply Hall.
  - destruct (decide (id = i)) as [<-|Hne].
    + rewrite invoice_at_store_status_eq. simpl. lia.
    + rewrite invoice_at_store_status_ne by done. apply Hall.
  - destruct (decide (nextInvoiceId (registry w) = i)) as [<-|Hne].
    + rewrite invoice_at_store_invoice_eq. simpl. lia.
    + rewrite invoice_at_store_invoice_ne by done. apply Hall.
Qed.

Lemma run_status_range (chainId this : Z) (b : B) (txs : list (Env * Call))
    (i : Z) :
  0 <= status (invoice_at (registry (run (deployed chainId this b) txs)) i)
    <= 2.
Proof.
  revert i. induction txs as [|tx txs IH] using rev_ind; intros i.
  - unfold invoice_at. simpl. rewrite lookup_empty. simpl. lia.
  - rewrite run_snoc. by apply exec_status_range.
Qed.


Lemma project_total (w : World B) (i : Z) :
  Frontend.project w i
  = Some (Frontend.mkInvoice i
            (merchant (invoice_at (registry w) i))
            (payer (invoice_at (registry w) i))
            (expiresAt (invoice_at (registry w) i))
            (status (invoice_at (registry w) i))
            (metaHash (invoice_at (registry w) i))).
Proof. reflexivity. Qed.

Lemma queryFilter_elem (who i : Z) (log : list Effect) :
  i ∈ Frontend.queryFilter who log ->
  exists (p a e mh : Z) (md : string),
    ELog (InvoiceCreated i who p a e mh md) ∈ log.
Proof.
  unfold Frontend.queryFilter. intros Hin.
  apply list_elem_of_omap in Hin as (ev & Hev & Hsome).
  destruct ev as [s0| |[i0 m0 p0 a0 e0 mh0 md0| |]]; try discriminate.
  destruct (m0 =? who) eqn:Hm; [|discriminate].
  injection Hsome as ->. assert (m0 = who) as -> by lia. eauto 6.
Qed.

(** X10. [getMerchantInvoices] drops nothing and invents nothing: it yields
    one row per [InvoiceCreated] log of the merchant, newest first, because
    the [getInvoice] it calls for each never fails.  When the logs come from
    the history of the deployed contract, every row is an allocated invoice
    whose merchant in storage is the merchant asked for. *)
Theorem dashboard_lists_merchant_invoices (chainId this : Z) (b : B)
    (txs : list (Env * Call)) (who : Z) (log : list Effect) :
  let w := run (deployed chainId this b) txs in
  let rows := Frontend.getMerchantInvoices w who log in
  Frontend.id <$> rows = reverse (Frontend.queryFilter who log)
  /\ ((forall ev : Effect, ev ∈ log ->
         ev ∈ history (deployed chainId this b) txs) ->
      Forall (fun row =>
                Frontend.merchant row = who
                /\ merchant (invoice_at (registry w) (Frontend.id row)) = who
                /\ 0 <= Frontend.id row < nextInvoiceId (registry w)) rows).
Proof.
  intros w rows. subst rows. unfold Frontend.getMerchantInvoices.
  split.
  - induction (reverse (Frontend.queryFilter who log)) as [|i l IH];
      [reflexivity|].
    simpl. f_equal. exact IH.
  - intros Hsub. apply Forall_forall. intros row Hrow.
    apply list_elem_of_omap in Hrow as (i & Hi & Hproj).
    rewrite project_total in Hproj. injection Hproj as <-. simpl.
    rewrite elem_of_reverse in Hi.
    apply queryFilter_elem in Hi as (p & a & e & mh & md & Hev).
    destruct (announced_in_storage chainId this b txs i who p a e mh md
                (Hsub _ Hev)) as (Hrange & Hterms & _).
    fold w in Hrange, Hterms. unfold terms in Hterms.
    injection Hterms as Hm _ _ _ _. auto.
Qed.


End Ledger.

(** ** The message under the signature *)

Section Encoding.
Context `{!Builtins}.

Lemma byte_of_Z_inj (z z' : Z) :
  byte_of_Z z = byte_of_Z z' -> z mod 256 = z' mod 256.
Proof.
  unfold byte_of_Z. intros Heq.
  assert (Hsome : forall x : Z,
            Byte.of_N (Z.to_N (x mod 256))
            = Some (default Byte.x00 (Byte.of_N (Z.to_N (x mod 256))))).
  { intros x. destruct (Byte.of_N (Z.to_N (x mod 256))) eqn:Hx; [reflexivity|].
    apply Byte.of_N_None_iff in Hx.
    pose proof (Z.mod_pos_bound x 256 ltac:(lia)). lia. }
  pose proof (Hsome z) as Hz. apply Byte.to_of_N in Hz.
  pose proof (Hsome z') as Hz'. apply Byte.to_of_N in Hz'.
  rewrite Heq in Hz. rewrite Hz in Hz'.
  pose proof (Z.mod_pos_bound z 256 ltac:(lia)).
  pose proof (Z.mod_pos_bound z' 256 ltac:(lia)).
  apply Z2N.inj in Hz'; lia.
Qed.

Lemma length_be_bytes (n : nat) (z : Z) : length (be_bytes n z) = n.
Proof.
  revert z. induction n as [|n IH]; intros z; [reflexivity|].
  simpl. rewrite length_app, IH. simpl. lia.
Qed.

Lemma be_bytes_inj (n : nat) (z z' : Z) :
  be_bytes n z = be_bytes n z' -> z mod 256 ^ Z.of_nat n = z' mod 256 ^ Z.of_nat n.
Proof.
  revert z z'. induction n as [|n IH]; intros z z' Heq.
  - simpl. by rewrite !Z.mod_1_r.
  - simpl in Heq. apply app_inj_tail in Heq as [Hhi Hlo].
    apply IH in Hhi. apply byte_of_Z_inj in Hlo.
    rewrite Nat2Z.inj_succ, Z.pow_succ_r by lia.
    rewrite !(Z.rem_mul_r _ 256) by lia. rewrite Hhi, Hlo. reflexivity.
Qed.

Lemma abi_encode_cons (x : Z) (xs : list Z) :
  abi_encode (x :: xs) = be_bytes 32 x ++ abi_encode xs.
Proof. reflexivity. Qed.

Lemma abi_encode_inj (xs ys : list Z) :
  length xs = length ys ->
  Forall (fun z => 0 <= z <= UINT256_MAX) xs ->
  Forall (fun z => 0 <= z <= UINT256_MAX) ys ->
  abi_encode xs = abi_encode ys -> xs = ys.
Proof.
  revert ys. induction xs as [|x xs IH]; intros [|y ys] Hlen Hxs Hys Heq;
    try discriminate; [reflexivity|].
  apply Forall_cons in Hxs as [Hx Hxs]. apply Forall_cons in Hys as [Hy Hys].
  rewrite !abi_encode_cons in Heq.
  apply app_inj_1 in Heq as [Hhead Htail];
    [|by rewrite !length_be_bytes].
  apply be_bytes_inj in Hhead.
  change (256 ^ Z.of_nat 32) with (UINT256_MAX + 1) in Hhead.
  rewrite !Z.mod_small in Hhead by lia. subst y. f_equal.
  apply IH; [by injection Hlen|exact Hxs|exact Hys|exact Htail].
Qed.

(** X11. The struct that [_verifySignature] hashes is encoded word by word,
    so the encoding determines it: two invoices whose merchant, payer,
    amount, expiry, metadata hash and nonce are values of their types and
    whose encodings are equal are the same in every field.  Two different
    authorizations can only share a digest through a collision of the hash
    itself. *)
Theorem struct_encoding_injective (m p a e mh n m' p' a' e' mh' n' : Z) :
  Forall (fun z => 0 <= z <= UINT256_MAX)
         [m; p; a; e; mh; n; m'; p'; a'; e'; mh'; n'] ->
  abi_encode [INVOICE_TYPEHASH; m; p; a; e; mh; n]
  = abi_encode [INVOICE_TYPEHASH; m'; p'; a'; e'; mh'; n'] ->
  m = m' /\ p = p' /\ a = a' /\ e = e' /\ mh = mh' /\ n = n'.
Proof.
  intros Hrange Heq.
  rewrite (abi_encode_cons INVOICE_TYPEHASH) in Heq.
  rewrite (abi_encode_cons INVOICE_TYPEHASH [m'; p'; a'; e'; mh'; n']) in Heq.
  apply app_inj_1 in Heq as [_ Heq]; [|reflexivity].
  assert (Hrest : [m; p; a; e; mh; n] = [m'; p'; a'; e'; mh'; n']).
  { apply abi_encode_inj; [reflexivity| | |exact Heq].
    - rewrite !Forall_cons in Hrange. rewrite !Forall_cons. tauto.
    - rewrite !Forall_cons in Hrange. rewrite !Forall_cons. tauto. }
  injection Hrest as -> -> -> -> -> ->. repeat split.
Qed.

End Encoding.

(** ** The gasless link, from the dashboard to the payment page *)

Section LinkRoundTrip.
Context {P : Type} `{!URLSearchParams P}.
Variable atob : string -> option string.
Variable describe : string -> option string.

Ltac read_params :=
  repeat (rewrite sp_get_set_eq
          || (rewrite sp_get_set_ne by discriminate)
          || rewrite sp_get_new).

(** X13. The dashboard stores the metadata of a gasless link under the key
    [meta]; the payment page looks it up under [m].  So for every link the
    dashboard builds with a non-empty signature, whatever the decoders do,
    the page recovers the merchant, amount, expiry, payer, signature and
    registry it was given, but its metadata string is empty and its
    description is "No description": the metadata the merchant signed never
    reaches the [createAndPayInvoice] call the page makes. *)
Theorem gasless_link_loses_metadata
    (merchant amount expires meta64 sig registry payer : string) :
  sig <> EmptyString ->
  GaslessLink.read_link atob describe
    (GaslessLink.link_params merchant amount expires meta64 sig registry payer)
  = Some (GaslessLink.mkView
            merchant
            (GaslessLink.or_else (Some amount) "0")
            (GaslessLink.or_else (Some expires) "0")
            EmptyString
            (GaslessLink.or_else (Some payer) GaslessLink.ZeroAddress)
            sig registry "No description").
Proof.
  intros Hsig. unfold GaslessLink.read_link, GaslessLink.link_params.
  destruct payer as [|c payer']; read_params.
  - destruct sig as [|c sig']; [done|]. simpl.
    by destruct merchant, registry.
  - destruct sig as [|c' sig']; [done|]. simpl.
    by destruct merchant, registry.
Qed.

End LinkRoundTrip.

(** ** The model at concrete inputs *)

Section Runs.
Import Toy.

(** C1 at a concrete input: Bob, who holds nothing, pays invoice #0. *)
Lemma transfer_failure_rolls_back_witness :
  declined (trace (final (pay (at_time bob 110) 0 (enter (shop broke)))))
    = true
  /\ transact (pay (at_time bob 110) 0) (shop broke)
       = (shop broke, Failed (Revert "Transfer failed")).
Proof.
  assert (Hd : declined
                 (trace (final (pay (at_time bob 110) 0 (enter (shop broke)))))
               = true) by (vm_compute; reflexivity).
  split; [exact Hd|].
  destruct (transfer_failure_rolls_back (at_time bob 110) (shop broke))
    as [Hpay _].
  exact (proj1 (Hpay 0 Hd)).
Defined.

(** The claim C2 fails on the code: an authorization that is both expired
    and signed by nobody reverts with "Expired", not with a signature error. *)
Lemma gasless_signature_first_counterexample :
  let env := at_time bob 6000 in
  let w := genesis rich in
  5000 < block_timestamp env
  /\ _verifySignature (registry w) alice 0 50 5000 (keccak256 (bytes "tea"))
                      (nonce_at (registry w) alice) 27 0 1 = false
  /\ (transact (createAndPayInvoice env alice 0 50 5000 "tea" 27 0 1) w).2
       = Failed (Revert "Expired")
  /\ Revert "Expired" <> Revert "Invalid signature".
Proof.
  repeat split; try (vm_compute; reflexivity).
  - vm_compute. discriminate.
Qed.

(** C2 (amended) at the same input. *)
Lemma gasless_check_order_witness :
  5000 < block_timestamp (at_time bob 6000)
  /\ transact (createAndPayInvoice (at_time bob 6000) alice 0 50 5000 "tea"
                                   27 0 1) (genesis rich)
       = (genesis rich, Failed (Revert "Expired")).
Proof.
  assert (Hexp : 5000 < block_timestamp (at_time bob 6000)) by (simpl; lia).
  split; [exact Hexp|].
  exact (proj1 (gasless_check_order (at_time bob 6000) (genesis rich)
                  alice 0 50 5000 "tea" 27 0 1) Hexp).
Defined.


(** The claim C5 fails on the code: identifier 7 was never allocated, yet
    [pay] reports "Expired", [cancelInvoice] reports "Not merchant" and
    [getInvoice] returns a record. *)
Lemma unknown_id_not_found_counterexample :
  nextInvoiceId (registry (shop rich)) = 1
  /\ invoices (registry (shop rich)) !! 7 = None
  /\ (transact (pay (at_time bob 110) 7) (shop rich)).2
       = Failed (Revert "Expired")
  /\ (transact (cancelInvoice (at_time bob 110) 7) (shop rich)).2
       = Failed (Revert "Not merchant")
  /\ (transact (getInvoice 7) (shop rich)).2 = Success (0, 0, 0, 0, 0, 0) [].
Proof. repeat split; vm_compute; reflexivity. Qed.

(** C5 (amended) at the same input. *)
Lemma unallocated_identifier_witness :
  let txs := [(at_time alice 100, CreateInvoice 0 100 3700 "coffee")] in
  let w := run (deployed 2201 0xBEEF rich) txs in
  Forall (fun tx => live tx.1) txs
  /\ live (at_time bob 110)
  /\ ~ (0 <= 7 < nextInvoiceId (registry w))
  /\ transact (pay (at_time bob 110) 7) w = (w, Failed (Revert "Expired")).
Proof.
  intros txs w.
  assert (Htxs : Forall (fun tx => live tx.1) txs)
    by (apply Forall_cons; split;
        [split; [vm_compute; reflexivity|vm_compute; discriminate]
        |apply Forall_nil_2]).
  assert (Hlive : live (at_time bob 110))
    by (split; [vm_compute; reflexivity|vm_compute; discriminate]).
  assert (Hnext : nextInvoiceId (registry w) = 1) by (vm_compute; reflexivity).
  assert (Hout : ~ (0 <= 7 < nextInvoiceId (registry w)))
    by (rewrite Hnext; lia).
  split; [exact Htxs|]. split; [exact Hlive|]. split; [exact Hout|].
  exact (proj1 (unallocated_identifier 2201 0xBEEF rich txs (at_time bob 110)
                  7 Htxs Hlive Hout)).
Defined.



(** The claim C7 fails on the code: invoice #0 is Paid, Carol is not its
    merchant, and her [cancelInvoice] reports "Not merchant", not the
    invalid-state reason "Cannot cancel". *)
Lemma cancel_terminal_counterexample :
  status (invoice_at (registry paid_shop) 0) = 1
  /\ merchant (invoice_at (registry paid_shop) 0) <> carol
  /\ (transact (cancelInvoice (at_time carol 120) 0) paid_shop).2
       = Failed (Revert "Not merchant")
  /\ Revert "Not merchant" <> Revert "Cannot cancel".
Proof.
  repeat split; try (vm_compute; reflexivity); vm_compute; discriminate.
Qed.

(** C7 (amended) at a concrete input: the paid invoice #0. *)
Lemma status_moves_once_witness :
  0 < nextInvoiceId (registry paid_shop)
  /\ status (invoice_at (registry paid_shop) 0) <> 0
  /\ transact (pay (at_time bob 130) 0) paid_shop
       = (paid_shop, Failed (Revert "Not pending"))
  /\ transact (cancelInvoice (at_time carol 130) 0) paid_shop
       = (paid_shop, Failed (Revert "Not merchant")).
Proof.
  assert (Hid : 0 < nextInvoiceId (registry paid_shop))
    by (vm_compute; reflexivity).
  assert (Hterm : status (invoice_at (registry paid_shop) 0) <> 0)
    by (vm_compute; discriminate).
  split; [exact Hid|]. split; [exact Hterm|].
  destruct (status_moves_once paid_shop 0 Hid) as (_ & _ & _ & Hfail).
  destruct (Hfail Hterm (at_time bob 130)) as [Hpay _].
  destruct (Hfail Hterm (at_time carol 130)) as [_ Hcancel].
  split; [exact Hpay|exact Hcancel].
Defined.

(** C8 at a concrete input: Bob pays invoice #0. *)
Lemma pay_marks_paid_then_transfers_witness :
  let es := committed (exec (shop rich) (at_time bob 110, Pay 0)).2 in
  transact (pay (at_time bob 110) 0) (shop rich) = (paid_shop, Success tt es)
  /\ es = [EStore (registry paid_shop); ECall bob alice 100 true;
           ELog (InvoicePaid 0 bob alice 100)].
Proof.
  intros es.
  assert (Hok : transact (pay (at_time bob 110) 0) (shop rich)
                = (paid_shop, Success tt es)) by (vm_compute; reflexivity).
  split; [exact Hok|].
  destruct (pay_marks_paid_then_transfers (at_time bob 110) (shop rich) 0
              paid_shop es Hok) as (s1 & Hes & _ & _ & _ & Hreg).
  rewrite Hreg. exact Hes.
Defined.

(** C10 at a concrete input: the paid invoice #0 on the dashboard. *)
Lemma dashboard_status_off_by_one_witness :
  status (invoice_at (registry paid_shop) 0) = 1
  /\ exists inv : Frontend.Invoice,
       Frontend.project paid_shop 0 = Some inv
       /\ Frontend.member (Frontend.status inv) = Some Frontend.CREATED
       /\ Frontend.badges inv = ["PENDING"].
Proof.
  assert (Hpaid : status (invoice_at (registry paid_shop) 0) = 1)
    by (vm_compute; reflexivity).
  split; [exact Hpaid|].
  destruct (dashboard_status_off_by_one paid_shop 0)
    as [(inv & Hproj & _ & _ & Hone & _) _].
  exists inv. split; [exact Hproj|].
  destruct (Hone Hpaid) as (Hmember & Hbadge & _).
  split; [exact Hmember|exact Hbadge].
Defined.

End Runs.

(** ** The further properties at concrete inputs *)

Section MoreRuns.
Import Toy.
#[local] Existing Instance GaslessLink.pairs.

(** X1 at a concrete input: Bob pays the open invoice #0 in time. *)
Lemma pay_succeeds_iff_witness :
  succeeded (transact (pay (at_time bob 110) 0) (shop rich)).2 = true.
Proof.
  destruct (pay_succeeds_iff (at_time bob 110) (shop rich) 0) as [Hiff _].
  apply Hiff. repeat split; try (vm_compute; reflexivity).
  - vm_compute. discriminate.
  - left. vm_compute. reflexivity.
Defined.

(** X2 at a concrete input: Alice cancels her invoice #0. *)
Lemma cancel_by_merchant_only_witness :
  succeeded (transact (cancelInvoice (at_time alice 120) 0) (shop rich)).2
    = true
  /\ ledger (transact (cancelInvoice (at_time alice 120) 0) (shop rich)).1
     = rich.
Proof.
  destruct (cancel_by_merchant_only (at_time alice 120) (shop rich) 0)
    as (Hiff & Hdone & _).
  assert (Hok : succeeded
                  (transact (cancelInvoice (at_time alice 120) 0)
                            (shop rich)).2 = true)
    by (apply Hiff; split; vm_compute; reflexivity).
  split; [exact Hok|].
  destruct (Hdone Hok) as (_ & _ & _ & _ & Hledger & _). exact Hledger.
Defined.

(** X3 at a concrete input: Bob redeems Alice's first signature. *)
Lemma gasless_succeeds_iff_witness :
  let call := createAndPayInvoice (at_time bob 100) alice 0 50 5000 "tea" 27
                (tea_r (genesis rich) 0) 1 in
  succeeded (transact call (genesis rich)).2 = true
  /\ ecrecover (invoiceDigest (registry (genesis rich)) alice 0 50 5000
                  (keccak256 (bytes "tea"))
                  (nonce_at (registry (genesis rich)) alice))
               27 (tea_r (genesis rich) 0) 1 = alice.
Proof.
  intros call.
  assert (Hok : succeeded (transact call (genesis rich)).2 = true)
    by (vm_compute; reflexivity).
  split; [exact Hok|].
  destruct (gasless_succeeds_iff (at_time bob 100) (genesis rich) alice 0 50
              5000 "tea" 27 (tea_r (genesis rich) 0) 1) as [Hiff _].
  destruct (proj1 Hiff Hok) as (_ & _ & Hrec & _). exact Hrec.
Defined.

(** X4 at a concrete input: invoice #0 before and after Bob pays it. *)
Lemma invoice_terms_immutable_witness :
  0 < nextInvoiceId (registry (shop rich))
  /\ amount (invoice_at (registry (run (shop rich) [(at_time bob 110, Pay 0)]))
                        0)
     = amount (invoice_at (registry (shop rich)) 0).
Proof.
  assert (Hi : 0 < nextInvoiceId (registry (shop rich)))
    by (vm_compute; reflexivity).
  split; [exact Hi|].
  destruct (invoice_terms_immutable (shop rich) [(at_time bob 110, Pay 0)] 0
              Hi) as (_ & _ & Ha & _).
  exact Ha.
Defined.

(** X5 at a concrete input: the event of Alice's [createInvoice]. *)
Lemma created_events_describe_storage_witness :
  let txs := [(at_time alice 100, CreateInvoice 0 100 3700 "coffee");
              (at_time bob 110, Pay 0)] in
  let w0 := deployed 2201 0xBEEF rich in
  ELog (InvoiceCreated 0 alice 0 100 3700 (keccak256 (bytes "coffee"))
                       "coffee") ∈ history w0 txs
  /\ amount (invoice_at (registry (run w0 txs)) 0) = 100.
Proof.
  intros txs w0.
  assert (Hin : ELog (InvoiceCreated 0 alice 0 100 3700
                        (keccak256 (bytes "coffee")) "coffee")
                ∈ history w0 txs).
  { apply list_elem_of_In. vm_compute. right. right. left. reflexivity. }
  split; [exact Hin|].
  destruct (created_events_describe_storage 2201 0xBEEF rich txs 0 alice 0
              100 3700 (keccak256 (bytes "coffee")) "coffee" Hin)
    as (_ & _ & _ & Ha & _).
  exact Ha.
Defined.

(** X7 at a concrete input: Alice's signature survives her own
    [createInvoice]. *)
Lemma authorization_outlives_traffic_witness :
  let txs := [(at_time alice 100, CreateInvoice 0 100 3700 "coffee")] in
  consumed alice (genesis rich) txs = []
  /\ succeeded
       (transact (createAndPayInvoice (at_time bob 200) alice 0 50 5000 "tea"
                    27 (tea_r (genesis rich) 0) 1)
                 (run (genesis rich) txs)).2 = true.
Proof.
  intros txs.
  assert (Hquiet : consumed alice (genesis rich) txs = [])
    by (vm_compute; reflexivity).
  split; [exact Hquiet|].
  refine (proj2 (proj2 (authorization_outlives_traffic (genesis rich) txs
            (at_time bob 200) alice 0 50 5000 "tea" 27
            (tea_r (genesis rich) 0) 1 Hquiet _ _ _ _ _ _))).
  - vm_compute. reflexivity.
  - vm_compute. discriminate.
  - left. reflexivity.
  - vm_compute. discriminate.
  - vm_compute. discriminate.
  - vm_compute. reflexivity.
Defined.

(** X8 at a concrete input: a creation and a payment. *)
Lemma no_invoice_paid_twice_witness :
  let txs := [(at_time alice 100, CreateInvoice 0 100 3700 "coffee");
              (at_time bob 110, Pay 0)] in
  Forall (fun tx => live tx.1) txs
  /\ NoDup (paid_ids (history (deployed 2201 0xBEEF rich) txs)).
Proof.
  intros txs.
  assert (Hlive : Forall (fun tx => live tx.1) txs).
  { repeat (apply Forall_cons; split;
            [split; [vm_compute; reflexivity|vm_compute; discriminate]|]).
    apply Forall_nil_2. }
  split; [exact Hlive|].
  exact (proj1 (no_invoice_paid_twice 2201 0xBEEF rich txs Hlive)).
Defined.


(** X10 at a concrete input: Alice's dashboard over the whole history. *)
Lemma dashboard_lists_merchant_invoices_witness :
  let txs := [(at_time alice 100, CreateInvoice 0 100 3700 "coffee");
              (at_time bob 110, Pay 0)] in
  let w0 := deployed 2201 0xBEEF rich in
  Forall (fun row => Frontend.merchant row = alice)
         (Frontend.getMerchantInvoices (run w0 txs) alice (history w0 txs)).
Proof.
  intros txs w0.
  destruct (dashboard_lists_merchant_invoices 2201 0xBEEF rich txs alice
              (history w0 txs)) as [_ Hrows].
  specialize (Hrows (fun ev Hev => Hev)).
  eapply Forall_impl; [exact Hrows|]. intros row (Hm & _). exact Hm.
Defined.

(** X11 at a concrete input. *)
Lemma struct_encoding_injective_witness :
  abi_encode [INVOICE_TYPEHASH; alice; 0; 50; 5000; 7; 0]
  = abi_encode [INVOICE_TYPEHASH; alice; 0; 50; 5000; 7; 0]
  /\ alice = alice.
Proof.
  split; [reflexivity|].
  refine (proj1 (struct_encoding_injective alice 0 50 5000 7 0
                   alice 0 50 5000 7 0 _ eq_refl)).
  repeat (apply Forall_cons; split; [vm_compute; split; discriminate|]).
  apply Forall_nil_2.
Defined.


(** X13 at a concrete input, with the parameters as a list of pairs. *)
Lemma gasless_link_loses_metadata_witness :
  GaslessLink.metadataString
    <$> GaslessLink.read_link (fun _ => None) (fun _ => None)
          (GaslessLink.link_params (P := list (string * string))
             "0xA11CE" "50" "5000" "eyJkIjoidGVhIn0=" "0x5167" "0xBEEF" "")
  = Some EmptyString.
Proof.
  rewrite (gasless_link_loses_metadata (P := list (string * string))
             (fun _ => None) (fun _ => None)
             "0xA11CE" "50" "5000" "eyJkIjoidGVhIn0=" "0x5167" "0xBEEF" "");
    [reflexivity|discriminate].
Defined.

End MoreRuns.
